(** * The MySQL dialect of the schema inspector (src/lib/dialects/mysql.ts)

    The module is a facade over the query builder: every method builds one
    catalog query, awaits it (or forgets to), and maps the raw rows to the
    result shape.  The embedding below has three layers:

    - [Js]: the JavaScript values the methods handle, property reads,
      truthiness, strict equality, and promises (resolved or rejected);
    - [Sql] and [Knex]: the catalog relations of the server, the query
      builder as the immutable description of a query, and the evaluation
      of a built query against the catalog ([Knex.await]);
    - [MySQL]: the methods of the class, one definition per method, written
      call for call as in the source.

    Modelling choices that the source does not decide are stated where they
    are made: SQL text comparison is exact, rows come back in catalog order,
    and only the catalog columns that the module names are kept (no
    identifier of the module names a column that was left out). *)

From Stdlib Require Import String Ascii List Bool ZArith Arith Lia.
Import ListNotations.
Local Open Scope string_scope.
Local Open Scope list_scope.

(** ** JavaScript values and promises *)

Module Js.

#[local] Set Warnings "-register-all".

(** Values as the methods see them.  A function value only records its
    name: the module never calls a value it read from an object. *)
Inductive Value : Type :=
| VUndefined
| VNull
| VBool (b : bool)
| VNum (z : Z)
| VStr (s : string)
| VFunction (name : string)
| VObject (props : list (string * Value))
| VArray (elems : list Value).

Inductive Error : Type :=
| TypeError (message : string)
| DbError (code : string) (detail : string).

(** The settled state of a promise. *)
Inductive Promise (A : Type) : Type :=
| Resolved (a : A)
| Rejected (e : Error).
Arguments Resolved {A} a.
Arguments Rejected {A} e.

Definition bind {A B : Type} (p : Promise A) (k : A -> Promise B) : Promise B :=
  match p with
  | Resolved a => k a
  | Rejected e => Rejected e
  end.

Fixpoint mapM {A B : Type} (f : A -> Promise B) (l : list A) : Promise (list B) :=
  match l with
  | [] => Resolved []
  | x :: xs =>
      bind (f x) (fun y => bind (mapM f xs) (fun ys => Resolved (y :: ys)))
  end.

(** [!!v] *)
Definition truthy (v : Value) : bool :=
  match v with
  | VUndefined | VNull => false
  | VBool b => b
  | VNum z => negb (Z.eqb z 0)
  | VStr s => negb (String.eqb s EmptyString)
  | VFunction _ | VObject _ | VArray _ => true
  end.

(** [a === b] on primitives.  Objects, arrays and functions compare by
    identity, which the model does not track: they are never equal. *)
Definition strict_eq (a b : Value) : bool :=
  match a, b with
  | VUndefined, VUndefined => true
  | VNull, VNull => true
  | VBool x, VBool y => Bool.eqb x y
  | VNum x, VNum y => Z.eqb x y
  | VStr x, VStr y => String.eqb x y
  | _, _ => false
  end.

Fixpoint assoc (k : string) (props : list (string * Value)) : option Value :=
  match props with
  | [] => None
  | (k', v) :: rest => if String.eqb k k' then Some v else assoc k rest
  end.

Definition describe (v : Value) : string :=
  match v with
  | VNull => "null"
  | _ => "undefined"
  end.

(** [v.k] and [v['k']]: reading a property of [undefined] or [null]
    throws, a missing property reads as [undefined]. *)
Definition get (v : Value) (k : string) : Promise Value :=
  match v with
  | VUndefined | VNull =>
      Rejected (TypeError ("Cannot read property '" ++ k ++ "' of " ++ describe v))
  | VObject props =>
      match assoc k props with
      | Some x => Resolved x
      | None => Resolved VUndefined
      end
  | _ => Resolved VUndefined
  end.

(** [v[i]] for an array index. *)
Definition at_index (v : Value) (i : nat) : Promise Value :=
  match v with
  | VUndefined | VNull =>
      Rejected (TypeError ("Cannot read property '" ++
                           String (ascii_of_nat (48 + i)) EmptyString ++ "' of " ++ describe v))
  | VArray elems => Resolved (nth i elems VUndefined)
  | _ => Resolved VUndefined
  end.

(** [records.map(f)] *)
Definition array_map {B : Type} (v : Value) (f : Value -> Promise B) : Promise (list B) :=
  match v with
  | VArray elems => mapM f elems
  | _ => Rejected (TypeError "records.map is not a function")
  end.

(** A value is present when it is neither [null] nor [undefined]. *)
Definition present (v : Value) : bool :=
  match v with
  | VUndefined | VNull => false
  | _ => true
  end.

(** An optional string argument ([table?: string]) and its test [if (table)]. *)
Definition given (arg : option string) : bool :=
  match arg with
  | Some s => truthy (VStr s)
  | None => false
  end.

Definition arg_value (arg : option string) : string :=
  match arg with
  | Some s => s
  | None => EmptyString
  end.

End Js.

Import Js.

Notation "x <- p ;; k" := (Js.bind p (fun x => k))
(at level 61, p at next level, right associativity).

(** ** The catalog of the server *)

Module Sql.

Inductive SqlVal : Type :=
| SNull
| SStr (s : string)
| SInt (z : Z).

(** The [=] of a WHERE or ON clause: a comparison with NULL is never true.
    Text compares exactly (a binary collation). *)
Definition eqb (a b : SqlVal) : bool :=
  match a, b with
  | SStr x, SStr y => String.eqb x y
  | SInt x, SInt y => Z.eqb x y
  | _, _ => false
  end.

(** What the driver hands to JavaScript for a cell. *)
Definition decode (v : SqlVal) : Value :=
  match v with
  | SNull => VNull
  | SStr s => VStr s
  | SInt z => VNum z
  end.

Definition nullable (o : option string) : SqlVal :=
  match o with
  | Some s => SStr s
  | None => SNull
  end.

(** Column names are case-insensitive: they are compared in upper case. *)
Definition upper_ascii (c : ascii) : ascii :=
  let n := nat_of_ascii c in
  if (97 <=? n)%nat && (n <=? 122)%nat then ascii_of_nat (n - 32) else c.

Fixpoint upper (s : string) : string :=
  match s with
  | EmptyString => EmptyString
  | String c rest => String (upper_ascii c) (upper rest)
  end.

(** [split_on sep s]: the text before and after the first [sep] in [s]. *)
Definition split_on (sep s : string) : option (string * string) :=
  match String.index 0 sep s with
  | Some i =>
      let j := (i + String.length sep)%nat in
      Some (substring 0 i s, substring j (String.length s - j) s)
  | None => None
  end.

(** A relation while a query runs: the header lists each column with the
    name (or alias) of the table it came from, the body holds the tuples. *)
Record Relation : Type := {
  header : list (string * string);
  body : list (list SqlVal)
}.

Definition cell (t : list SqlVal) (i : nat) : SqlVal := nth i t SNull.

Fixpoint position {A : Type} (p : A -> bool) (l : list A) : option nat :=
  match l with
  | [] => None
  | x :: xs => if p x then Some 0%nat else option_map S (position p xs)
  end.

(** A column reference is [COLUMN] or [alias.COLUMN]; one that the header
    does not have is the server's "unknown column" error. *)
Definition resolve (h : list (string * string)) (ref : string) : Promise nat :=
  let found :=
    match split_on "." ref with
    | Some (q, c) =>
        position (fun e => String.eqb q (fst e) && String.eqb (upper c) (snd e)) h
    | None =>
        position (fun e => String.eqb (upper ref) (snd e)) h
    end in
  match found with
  | Some i => Resolved i
  | None => Rejected (DbError "ER_BAD_FIELD_ERROR" ref)
  end.

(** The key under which a selected column appears in the result row. *)
Definition field_name (ref : string) : string :=
  match split_on "." ref with
  | Some (_, c) => c
  | None => ref
  end.

Definition on_holds (conds : list (nat * nat)) (t : list SqlVal) : bool :=
  forallb (fun c => eqb (cell t (fst c)) (cell t (snd c))) conds.

Definition where_holds (conds : list (nat * SqlVal)) (t : list SqlVal) : bool :=
  forallb (fun c => eqb (cell t (fst c)) (snd c)) conds.

(** LEFT JOIN: every left tuple is kept, paired with each right tuple that
    satisfies ON, or with NULLs when none does. *)
Definition left_join (on : list SqlVal -> bool) (width : nat)
    (l r : list (list SqlVal)) : list (list SqlVal) :=
  flat_map (fun a =>
    match filter (fun b => on (a ++ b)) r with
    | [] => [a ++ repeat SNull width]
    | ms => map (fun b => a ++ b) ms
    end) l.

End Sql.

(** The catalog relations the module queries, with the columns it names. *)

Module Tables.
Record row : Type := {
  TABLE_SCHEMA : string;
  TABLE_NAME : string;
  TABLE_TYPE : string;
  ENGINE : Sql.SqlVal;
  TABLE_COLLATION : Sql.SqlVal;
  TABLE_COMMENT : Sql.SqlVal
}.
Definition header : list string :=
  ["TABLE_SCHEMA"; "TABLE_NAME"; "TABLE_TYPE"; "ENGINE"; "TABLE_COLLATION";
   "TABLE_COMMENT"].
Definition tuple (r : row) : list Sql.SqlVal :=
  [Sql.SStr (TABLE_SCHEMA r); Sql.SStr (TABLE_NAME r); Sql.SStr (TABLE_TYPE r);
   ENGINE r; TABLE_COLLATION r; TABLE_COMMENT r].
End Tables.

Module Columns.
Record row : Type := {
  TABLE_SCHEMA : string;
  TABLE_NAME : string;
  COLUMN_NAME : string;
  COLUMN_DEFAULT : Sql.SqlVal;
  IS_NULLABLE : Sql.SqlVal;
  DATA_TYPE : Sql.SqlVal;
  CHARACTER_MAXIMUM_LENGTH : Sql.SqlVal;
  COLLATION_NAME : Sql.SqlVal;
  COLUMN_KEY : Sql.SqlVal;
  EXTRA : Sql.SqlVal;
  COLUMN_COMMENT : Sql.SqlVal
}.
Definition header : list string :=
  ["TABLE_SCHEMA"; "TABLE_NAME"; "COLUMN_NAME"; "COLUMN_DEFAULT"; "IS_NULLABLE";
   "DATA_TYPE"; "CHARACTER_MAXIMUM_LENGTH"; "COLLATION_NAME"; "COLUMN_KEY";
   "EXTRA"; "COLUMN_COMMENT"].
Definition tuple (r : row) : list Sql.SqlVal :=
  [Sql.SStr (TABLE_SCHEMA r); Sql.SStr (TABLE_NAME r); Sql.SStr (COLUMN_NAME r);
   COLUMN_DEFAULT r; IS_NULLABLE r; DATA_TYPE r; CHARACTER_MAXIMUM_LENGTH r;
   COLLATION_NAME r; COLUMN_KEY r; EXTRA r; COLUMN_COMMENT r].
End Columns.

Module KeyColumnUsage.
Record row : Type := {
  CONSTRAINT_SCHEMA : string;
  CONSTRAINT_NAME : string;
  TABLE_SCHEMA : string;
  TABLE_NAME : string;
  COLUMN_NAME : string;
  REFERENCED_TABLE_NAME : option string;
  REFERENCED_COLUMN_NAME : option string
}.
Definition header : list string :=
  ["CONSTRAINT_SCHEMA"; "CONSTRAINT_NAME"; "TABLE_SCHEMA"; "TABLE_NAME";
   "COLUMN_NAME"; "REFERENCED_TABLE_NAME"; "REFERENCED_COLUMN_NAME"].
Definition tuple (r : row) : list Sql.SqlVal :=
  [Sql.SStr (CONSTRAINT_SCHEMA r); Sql.SStr (CONSTRAINT_NAME r);
   Sql.SStr (TABLE_SCHEMA r); Sql.SStr (TABLE_NAME r); Sql.SStr (COLUMN_NAME r);
   Sql.nullable (REFERENCED_TABLE_NAME r); Sql.nullable (REFERENCED_COLUMN_NAME r)].
End KeyColumnUsage.

Module ReferentialConstraints.
Record row : Type := {
  CONSTRAINT_SCHEMA : string;
  CONSTRAINT_NAME : string;
  MATCH_OPTION : Sql.SqlVal;
  UPDATE_RULE : Sql.SqlVal;
  DELETE_RULE : Sql.SqlVal;
  TABLE_NAME : string;
  REFERENCED_TABLE_NAME : string
}.
Definition header : list string :=
  ["CONSTRAINT_SCHEMA"; "CONSTRAINT_NAME"; "MATCH_OPTION"; "UPDATE_RULE";
   "DELETE_RULE"; "TABLE_NAME"; "REFERENCED_TABLE_NAME"].
Definition tuple (r : row) : list Sql.SqlVal :=
  [Sql.SStr (CONSTRAINT_SCHEMA r); Sql.SStr (CONSTRAINT_NAME r); MATCH_OPTION r;
   UPDATE_RULE r; DELETE_RULE r; Sql.SStr (TABLE_NAME r);
   Sql.SStr (REFERENCED_TABLE_NAME r)].
End ReferentialConstraints.

(** The listing of SHOW KEYS, one row per key part; [Schema] is the
    database of the table, which the statement takes from the connection. *)
Module Keys.
Record row : Type := {
  Schema : string;
  Table : string;
  Key_name : string;
  Seq_in_index : Z;
  Column_name : string
}.
Definition object (r : row) : Value :=
  VObject [("Table", VStr (Table r)); ("Key_name", VStr (Key_name r));
           ("Seq_in_index", VNum (Seq_in_index r));
           ("Column_name", VStr (Column_name r))].
End Keys.

(** ** The query builder *)

Module Knex.

(** The connection the inspector holds: the selected database
    ([knex.client.database()]) and the catalog behind it. *)
Record Connection : Type := {
  database : string;
  TABLES : list Tables.row;
  COLUMNS : list Columns.row;
  KEY_COLUMN_USAGE : list KeyColumnUsage.row;
  REFERENTIAL_CONSTRAINTS : list ReferentialConstraints.row;
  KEYS : list Keys.row
}.

Inductive Projection : Type :=
| Select (columns : list string)
| Count (alias : string).

Record JoinClause : Type := {
  join_table : string;
  join_on : list (string * string)
}.

(** A builder is the query built so far.  Nothing runs until it is awaited. *)
Record QueryBuilder : Type := {
  projection : Projection;
  source : string;
  joins : list JoinClause;
  conditions : list (string * Sql.SqlVal);
  limit_one : bool
}.

Definition start (p : Projection) : QueryBuilder :=
  {| projection := p; source := EmptyString; joins := []; conditions := [];
     limit_one := false |}.

(** [knex.select(c1, c2, ...)] *)
Definition select (columns : list string) : QueryBuilder := start (Select columns).

(** [knex.count({ alias: '*' })] *)
Definition count (alias : string) : QueryBuilder := start (Count alias).

(** [.from(t)] *)
Definition from (t : string) (q : QueryBuilder) : QueryBuilder :=
  {| projection := projection q; source := t; joins := joins q;
     conditions := conditions q; limit_one := limit_one q |}.

(** [.where({ c1: v1, ... })] and [.andWhere({ ... })] *)
Definition where_ (conds : list (string * Sql.SqlVal)) (q : QueryBuilder) : QueryBuilder :=
  {| projection := projection q; source := source q; joins := joins q;
     conditions := conditions q ++ conds; limit_one := limit_one q |}.

Definition andWhere := where_.

(** [this.on(a, '=', b)] and [.andOn(a, '=', b)] inside a join callback *)
Definition on_ (a b : string) : list (string * string) := [(a, b)].

Definition andOn (a b : string) (clause : list (string * string)) : list (string * string) :=
  clause ++ [(a, b)].

(** [.leftJoin(t, function () { ... })] *)
Definition leftJoin (t : string) (clause : list (string * string)) (q : QueryBuilder)
    : QueryBuilder :=
  {| projection := projection q; source := source q;
     joins := joins q ++ [{| join_table := t; join_on := clause |}];
     conditions := conditions q; limit_one := limit_one q |}.

(** [.first()] *)
Definition first (q : QueryBuilder) : QueryBuilder :=
  {| projection := projection q; source := source q; joins := joins q;
     conditions := conditions q; limit_one := true |}.

(** The builder is itself an object: reading one of its method names
    yields that method, whether or not the query was ever run. *)
Definition methods : list string :=
  ["select"; "count"; "from"; "where"; "andWhere"; "leftJoin"; "first";
   "then"; "catch"].

Definition property (q : QueryBuilder) (k : string) : Value :=
  if existsb (String.eqb k) methods then VFunction k else VUndefined.

Definition catalog_relation (knex : Connection) (name : string)
    : option (list string * list (list Sql.SqlVal)) :=
  let n := Sql.upper name in
  if String.eqb n "INFORMATION_SCHEMA.TABLES" then
    Some (Tables.header, map Tables.tuple (TABLES knex))
  else if String.eqb n "INFORMATION_SCHEMA.COLUMNS" then
    Some (Columns.header, map Columns.tuple (COLUMNS knex))
  else if String.eqb n "INFORMATION_SCHEMA.KEY_COLUMN_USAGE" then
    Some (KeyColumnUsage.header, map KeyColumnUsage.tuple (KEY_COLUMN_USAGE knex))
  else if String.eqb n "INFORMATION_SCHEMA.REFERENTIAL_CONSTRAINTS" then
    Some (ReferentialConstraints.header,
          map ReferentialConstraints.tuple (REFERENTIAL_CONSTRAINTS knex))
  else None.

(** [name] or [name as alias] *)
Definition load (knex : Connection) (t : string) : Promise Sql.Relation :=
  let '(name, alias) :=
    match Sql.split_on " as " t with
    | Some (n, a) => (n, a)
    | None => (t, t)
    end in
  match catalog_relation knex name with
  | Some (cols, rows) =>
      Resolved {| Sql.header := map (pair alias) cols; Sql.body := rows |}
  | None => Rejected (DbError "ER_NO_SUCH_TABLE" name)
  end.

Definition resolve_on (h : list (string * string)) (c : string * string)
    : Promise (nat * nat) :=
  i <- Sql.resolve h (fst c) ;;
  k <- Sql.resolve h (snd c) ;;
  Resolved (i, k).

Definition resolve_where (h : list (string * string)) (c : string * Sql.SqlVal)
    : Promise (nat * Sql.SqlVal) :=
  i <- Sql.resolve h (fst c) ;;
  Resolved (i, snd c).

Definition resolve_field (h : list (string * string)) (c : string)
    : Promise (string * nat) :=
  i <- Sql.resolve h c ;;
  Resolved (Sql.field_name c, i).

Fixpoint apply_joins (knex : Connection) (js : list JoinClause) (acc : Sql.Relation)
    : Promise Sql.Relation :=
  match js with
  | [] => Resolved acc
  | j :: rest =>
      r <- load knex (join_table j) ;;
      let h := Sql.header acc ++ Sql.header r in
      on <- mapM (resolve_on h) (join_on j) ;;
      apply_joins knex rest
        {| Sql.header := h;
           Sql.body := Sql.left_join (Sql.on_holds on) (List.length (Sql.header r))
                         (Sql.body acc) (Sql.body r) |}
  end.

Definition project (fields : list (string * nat)) (t : list Sql.SqlVal)
    : list (string * Value) :=
  map (fun f => (fst f, Sql.decode (Sql.cell t (snd f)))) fields.

(** The rows the server returns for a built query. *)
Definition rows_of (knex : Connection) (q : QueryBuilder)
    : Promise (list (list (string * Value))) :=
  base <- load knex (source q) ;;
  rel <- apply_joins knex (joins q) base ;;
  conds <- mapM (resolve_where (Sql.header rel)) (conditions q) ;;
  let kept := filter (Sql.where_holds conds) (Sql.body rel) in
  match projection q with
  | Select columns =>
      fields <- mapM (resolve_field (Sql.header rel)) columns ;;
      Resolved (map (project fields) (if limit_one q then firstn 1 kept else kept))
  | Count alias =>
      Resolved [[(alias, VNum (Z.of_nat (List.length kept)))]]
  end.

(** [await q]: an array of row objects, or with [.first()] the first row
    object, [undefined] when there is none. *)
Definition await (knex : Connection) (q : QueryBuilder) : Promise Value :=
  rows <- rows_of knex q ;;
  if limit_one q then
    Resolved (match rows with
              | r :: _ => VObject r
              | [] => VUndefined
              end)
  else Resolved (VArray (map VObject rows)).

Definition table_exists (knex : Connection) (t : string) : bool :=
  existsb (fun r => String.eqb (Tables.TABLE_SCHEMA r) (database knex)
                    && String.eqb (Tables.TABLE_NAME r) t) (TABLES knex).

Definition keys_of (knex : Connection) (t key_name : string) : list Keys.row :=
  filter (fun r => String.eqb (Keys.Schema r) (database knex)
                   && String.eqb (Keys.Table r) t
                   && String.eqb (Keys.Key_name r) key_name) (KEYS knex).

(** [await knex.raw(sql, binding)]: the driver resolves to the pair
    [[rows, fields]].  The one statement the module sends is the key
    listing of a table, with the table bound to [??]; the binding is taken
    as the plain name of a table of the selected database (a qualified or
    aliased identifier is outside the model).  Listing the keys of a table
    that does not exist is an error of the server. *)
Definition raw (knex : Connection) (sql binding : string) : Promise Value :=
  if String.eqb sql "SHOW KEYS FROM ?? WHERE Key_name = 'PRIMARY'" then
    if table_exists knex binding then
      Resolved (VArray [VArray (map Keys.object (keys_of knex binding "PRIMARY"));
                        VArray []])
    else Rejected (DbError "ER_NO_SUCH_TABLE" binding)
  else Rejected (DbError "ER_PARSE_ERROR" sql).

End Knex.

Notation "q |> f" := (f q) (at level 59, left associativity, only parsing).

(** ** The inspector *)

Module Table.
Record t : Type := {
  name : Value;
  schema : Value;
  comment : Value;
  collation : Value;
  engine : Value
}.
End Table.

Module Column.
Record t : Type := {
  name : Value;
  table : Value;
  type : Value;
  default_value : Value;
  max_length : Value;
  is_nullable : Value;
  is_primary_key : bool;
  has_auto_increment : bool;
  foreign_key_column : Value;
  foreign_key_table : Value;
  comment : Value
}.
End Column.

(** The pair [{ table, column }] that [columns] returns for each row. *)
Module TableColumn.
Record t : Type := {
  table : Value;
  column : Value
}.
End TableColumn.

Module MySQL.

Import Sql Knex.

(** The overloads of [tableInfo] and [columnInfo] return one record or an
    array of records. *)
Inductive TableInfo : Type :=
| OneTable (t : Table.t)
| AllTables (ts : list Table.t).

Inductive ColumnInfo : Type :=
| OneColumn (c : Column.t)
| AllColumns (cs : list Column.t).

(** The object literal of the single-column branch of [columnInfo]. *)
Definition column_of_first (rawColumn : Value) : Promise Column.t :=
  name <- get rawColumn "COLUMN_NAME" ;;
  table <- get rawColumn "TABLE_NAME" ;;
  type <- get rawColumn "DATA_TYPE" ;;
  default_value <- get rawColumn "COLUMN_DEFAULT" ;;
  max_length <- get rawColumn "CHARACTER_MAXIMUM_LENGTH" ;;
  is_nullable <- get rawColumn "IS_NULLABLE" ;;
  constraint_name <- get rawColumn "CONSTRAINT_NAME" ;;
  extra <- get rawColumn "EXTRA" ;;
  foreign_key_column <- get rawColumn "REFERENCED_COLUMN_NAME" ;;
  foreign_key_table <- get rawColumn "REFERENCED_TABLE_NAME" ;;
  comment <- get rawColumn "COLUMN_COMMENT" ;;
  Resolved {|
    Column.name := name;
    Column.table := table;
    Column.type := type;
    Column.default_value := default_value;
    Column.max_length := max_length;
    Column.is_nullable := is_nullable;
    Column.is_primary_key := strict_eq constraint_name (VStr "PRIMARY");
    Column.has_auto_increment := strict_eq extra (VStr "auto_increment");
    Column.foreign_key_column := foreign_key_column;
    Column.foreign_key_table := foreign_key_table;
    Column.comment := comment
  |}.

(** The callback of [records.map] in the list branch of [columnInfo]. *)
Definition column_of_record (rawColumn : Value) : Promise Column.t :=
  name <- get rawColumn "COLUMN_NAME" ;;
  table <- get rawColumn "TABLE_NAME" ;;
  type <- get rawColumn "DATA_TYPE" ;;
  default_value <- get rawColumn "COLUMN_DEFAULT" ;;
  max_length <- get rawColumn "CHARACTER_MAXIMUM_LENGTH" ;;
  is_nullable <- get rawColumn "IS_NULLABLE" ;;
  constraint_name <- get rawColumn "CONSTRAINT_NAME" ;;
  extra <- get rawColumn "EXTRA" ;;
  foreign_key_column <- get rawColumn "REFERENCED_COLUMN_NAME" ;;
  foreign_key_table <- get rawColumn "REFERENCED_TABLE_NAME" ;;
  comment <- get rawColumn "COLUMN_COMMENT" ;;
  Resolved {|
    Column.name := name;
    Column.table := table;
    Column.type := type;
    Column.default_value := default_value;
    Column.max_length := max_length;
    Column.is_nullable := is_nullable;
    Column.is_primary_key := strict_eq constraint_name (VStr "PRIMARY");
    Column.has_auto_increment := strict_eq extra (VStr "auto_increment");
    Column.foreign_key_column := foreign_key_column;
    Column.foreign_key_table := foreign_key_table;
    Column.comment := comment
  |}.

(** The object literal of the single-table branch of [tableInfo]. *)
Definition table_of_first (rawTable : Value) : Promise Table.t :=
  name <- get rawTable "TABLE_NAME" ;;
  schema <- get rawTable "TABLE_SCHEMA" ;;
  comment <- get rawTable "TABLE_COMMENT" ;;
  collation <- get rawTable "TABLE_COLLATION" ;;
  engine <- get rawTable "ENGINE" ;;
  Resolved {|
    Table.name := name;
    Table.schema := schema;
    Table.comment := comment;
    Table.collation := collation;
    Table.engine := engine
  |}.

(** The callback of [records.map] in the list branch of [tableInfo]. *)
Definition table_of_record (rawTable : Value) : Promise Table.t :=
  name <- get rawTable "TABLE_NAME" ;;
  schema <- get rawTable "TABLE_SCHEMA" ;;
  comment <- get rawTable "TABLE_COMMENT" ;;
  collation <- get rawTable "TABLE_COLLATION" ;;
  engine <- get rawTable "ENGINE" ;;
  Resolved {|
    Table.name := name;
    Table.schema := schema;
    Table.comment := comment;
    Table.collation := collation;
    Table.engine := engine
  |}.

Section Inspector.

Variable knex : Connection.

(** [tables()] *)
Definition tables_query : QueryBuilder :=
  select ["table_namename"]
  |> from "information_schema.tables"
  |> where_ [("table_type", SStr "BASE TABLE");
             ("table_schema", SStr (database knex))].

Definition tables : Promise (list Value) :=
  records <- await knex tables_query ;;
  array_map records (fun r => get r "table_name").

(** [tableInfo(table?)] *)
Definition tableInfo_query : QueryBuilder :=
  select ["TABLE_NAME"; "ENGINE"; "TABLE_SCHEMA"; "TABLE_COLLATION"; "TABLE_COMMENT"]
  |> from "information_schema.tables"
  |> where_ [("table_schema", SStr (database knex));
             ("table_type", SStr "BASE TABLE")].

Definition tableInfo (table : option string) : Promise TableInfo :=
  let query := tableInfo_query in
  if given table then
    rawTable <- await knex (query
                            |> andWhere [("table_name", SStr (arg_value table))]
                            |> first) ;;
    t <- table_of_first rawTable ;;
    Resolved (OneTable t)
  else
    records <- await knex query ;;
    ts <- array_map records table_of_record ;;
    Resolved (AllTables ts).

(** [hasTable(table)]: the builder is not awaited; [count] is read off the
    builder object itself. *)
Definition hasTable_query (table : string) : QueryBuilder :=
  Knex.count "count"
  |> from "information_schema.tables"
  |> where_ [("table_schema", SStr (database knex));
             ("table_name", SStr table)]
  |> first.

Definition hasTable (table : string) : Promise bool :=
  let count := property (hasTable_query table) "count" in
  Resolved (truthy count).

(** [columns(table?)]; the row keys are the names the select list writes. *)
Definition columns_query : QueryBuilder :=
  select ["table_name"; "column_name"]
  |> from "information_schema.columns"
  |> where_ [("table_schema", SStr (database knex))].

Definition columns (table : option string) : Promise (list TableColumn.t) :=
  let query := columns_query in
  let query :=
    if given table then query |> andWhere [("table_name", SStr (arg_value table))]
    else query in
  records <- await knex query ;;
  array_map records (fun r =>
    table_name <- get r "table_name" ;;
    column_name <- get r "column_name" ;;
    Resolved {| TableColumn.table := table_name; TableColumn.column := column_name |}).

(** [columnInfo(table?, column?)] *)
Definition key_usage_join : list (string * string) :=
  on_ "fk.TABLE_NAME" "fk.TABLE_NAME"
  |> andOn "fk.COLUMN_NAME" "c.COLUMN_NAME"
  |> andOn "fk.CONSTRAINT_SCHEMA" "c.TABLE_SCHEMA".

Definition referential_join : list (string * string) :=
  on_ "rc.TABLE_NAME" "fk.TABLE_NAME"
  |> andOn "rc.CONSTRAINT_NAME" "fk.CONSTRAINT_NAME"
  |> andOn "rc.CONSTRAINT_SCHEMA" "fk.CONSTRAINT_SCHEMA".

Definition columnInfo_query : QueryBuilder :=
  select ["c.TABLE_NAME"; "c.COLUMN_NAME"; "c.COLUMN_DEFAULT"; "c.DATA_TYPE";
          "c.CHARACTER_MAXIMUM_LENGTH"; "c.IS_NULLABLE"; "c.COLUMN_KEY"; "c.EXTRA";
          "c.COLLATION_NAME"; "c.COLUMN_COMMENT"; "fk.REFERENCED_TABLE_NAME";
          "fk.REFERENCED_COLUMN_NAME"; "fk.CONSTRAINT_NAME"; "rc.UPDATE_RULE";
          "rc.DELETE_RULE"; "rc.MATCH_OPTION"]
  |> from "INFORMATION_SCHEMA.COLUMNS as c"
  |> leftJoin "INFORMATION_SCHEMA.KEY_COLUMN_USAGE as fk" key_usage_join
  |> leftJoin "INFORMATION_SCHEMA.REFERENTIAL_CONSTRAINTS as rc" referential_join
  |> where_ [("c.TABLE_SCHEMA", SStr (database knex))].

Definition columnInfo (table column : option string) : Promise ColumnInfo :=
  let query := columnInfo_query in
  let query :=
    if given table then query |> andWhere [("c.TABLE_NAME", SStr (arg_value table))]
    else query in
  if given column then
    rawColumn <- await knex (query
                             |> andWhere [("c.column_name", SStr (arg_value column))]
                             |> first) ;;
    c <- column_of_first rawColumn ;;
    Resolved (OneColumn c)
  else
    records <- await knex query ;;
    cs <- array_map records column_of_record ;;
    Resolved (AllColumns cs).

(** [hasColumn(table, column)]: not awaited either. *)
Definition hasColumn_query (table column : string) : QueryBuilder :=
  Knex.count "count"
  |> from "information_schema.tables"
  |> where_ [("table_schema", SStr (database knex));
             ("table_name", SStr table);
             ("column_name", SStr column)]
  |> first.

Definition hasColumn (table column : string) : Promise bool :=
  let count := property (hasColumn_query table column) "count" in
  Resolved (truthy count).

(** [primary(table)] *)
Definition primary (table : string) : Promise Value :=
  results <- raw knex "SHOW KEYS FROM ?? WHERE Key_name = 'PRIMARY'" table ;;
  rows <- at_index results 0 ;;
  row <- at_index rows 0 ;;
  get row "Column_name".

End Inspector.

End MySQL.

Import Sql Knex MySQL.

(** ** Example catalogs *)

Definition base_table (db t : string) : Tables.row :=
  {| Tables.TABLE_SCHEMA := db; Tables.TABLE_NAME := t;
     Tables.TABLE_TYPE := "BASE TABLE"; Tables.ENGINE := SStr "InnoDB";
     Tables.TABLE_COLLATION := SStr "utf8mb4_general_ci";
     Tables.TABLE_COMMENT := SStr EmptyString |}.

Definition column (db t c ty : string) (extra : string) : Columns.row :=
  {| Columns.TABLE_SCHEMA := db; Columns.TABLE_NAME := t; Columns.COLUMN_NAME := c;
     Columns.COLUMN_DEFAULT := SNull; Columns.IS_NULLABLE := SStr "YES";
     Columns.DATA_TYPE := SStr ty; Columns.CHARACTER_MAXIMUM_LENGTH := SNull;
     Columns.COLLATION_NAME := SNull; Columns.COLUMN_KEY := SStr EmptyString;
     Columns.EXTRA := SStr extra; Columns.COLUMN_COMMENT := SStr EmptyString |}.

Definition key_usage (db cn t c : string) (ref : option (string * string))
    : KeyColumnUsage.row :=
  {| KeyColumnUsage.CONSTRAINT_SCHEMA := db; KeyColumnUsage.CONSTRAINT_NAME := cn;
     KeyColumnUsage.TABLE_SCHEMA := db; KeyColumnUsage.TABLE_NAME := t;
     KeyColumnUsage.COLUMN_NAME := c;
     KeyColumnUsage.REFERENCED_TABLE_NAME := option_map fst ref;
     KeyColumnUsage.REFERENCED_COLUMN_NAME := option_map snd ref |}.

(** The scenario of the specification:
    [users(id INT PRIMARY KEY AUTO_INCREMENT, name VARCHAR(255),
           org_id INT REFERENCES orgs(id))] and [orgs(id INT PRIMARY KEY)]. *)
Definition app : Connection :=
  {| database := "app";
     TABLES := [base_table "app" "users"; base_table "app" "orgs"];
     COLUMNS := [column "app" "users" "id" "int" "auto_increment";
                 column "app" "users" "name" "varchar" EmptyString;
                 column "app" "users" "org_id" "int" EmptyString;
                 column "app" "orgs" "id" "int" EmptyString];
     KEY_COLUMN_USAGE :=
       [key_usage "app" "PRIMARY" "users" "id" None;
        key_usage "app" "users_ibfk_1" "users" "org_id" (Some ("orgs", "id"));
        key_usage "app" "PRIMARY" "orgs" "id" None];
     REFERENTIAL_CONSTRAINTS :=
       [{| ReferentialConstraints.CONSTRAINT_SCHEMA := "app";
           ReferentialConstraints.CONSTRAINT_NAME := "users_ibfk_1";
           ReferentialConstraints.MATCH_OPTION := SStr "NONE";
           ReferentialConstraints.UPDATE_RULE := SStr "RESTRICT";
           ReferentialConstraints.DELETE_RULE := SStr "RESTRICT";
           ReferentialConstraints.TABLE_NAME := "users";
           ReferentialConstraints.REFERENCED_TABLE_NAME := "orgs" |}];
     KEYS :=
       [{| Keys.Schema := "app"; Keys.Table := "users"; Keys.Key_name := "PRIMARY";
           Keys.Seq_in_index := 1; Keys.Column_name := "id" |};
        {| Keys.Schema := "app"; Keys.Table := "users"; Keys.Key_name := "users_ibfk_1";
           Keys.Seq_in_index := 1; Keys.Column_name := "org_id" |};
        {| Keys.Schema := "app"; Keys.Table := "orgs"; Keys.Key_name := "PRIMARY";
           Keys.Seq_in_index := 1; Keys.Column_name := "id" |}] |}.


Definition events_catalog : Connection :=
  {| database := database app;
     TABLES := TABLES app ++ [base_table "app" "events"];
     COLUMNS := COLUMNS app ++ [column "app" "events" "id" "int" EmptyString;
                                column "app" "events" "payload" "text" EmptyString];
     KEY_COLUMN_USAGE := KEY_COLUMN_USAGE app;
     REFERENTIAL_CONSTRAINTS := REFERENTIAL_CONSTRAINTS app;
     KEYS := KEYS app |}.

(** ** What the claims speak about, in terms of the catalog *)

(** [t] names a base table of the selected database. *)
Definition names_base_table (knex : Connection) (t : string) : bool :=
  existsb (fun r => String.eqb (Tables.TABLE_SCHEMA r) (database knex)
                    && String.eqb (Tables.TABLE_TYPE r) "BASE TABLE"
                    && String.eqb (Tables.TABLE_NAME r) t) (TABLES knex).

(** Table [t] of the selected database has a column [c]. *)
Definition names_column (knex : Connection) (t c : string) : bool :=
  existsb (fun r => String.eqb (Columns.TABLE_SCHEMA r) (database knex)
                    && String.eqb (Columns.TABLE_NAME r) t
                    && String.eqb (Columns.COLUMN_NAME r) c) (COLUMNS knex).

(** Column [c] of table [t] is part of the declared primary key. *)
Definition declared_primary (knex : Connection) (t c : string) : bool :=
  existsb (fun f => String.eqb (KeyColumnUsage.TABLE_SCHEMA f) (database knex)
                    && String.eqb (KeyColumnUsage.TABLE_NAME f) t
                    && String.eqb (KeyColumnUsage.COLUMN_NAME f) c
                    && String.eqb (KeyColumnUsage.CONSTRAINT_NAME f) "PRIMARY")
          (KEY_COLUMN_USAGE knex).

(** The server fills the two REFERENCED columns of a key-usage row
    together: both for a foreign key, neither for any other constraint. *)
Definition references_paired (knex : Connection) : bool :=
  forallb (fun f =>
    match KeyColumnUsage.REFERENCED_TABLE_NAME f,
          KeyColumnUsage.REFERENCED_COLUMN_NAME f with
    | Some _, Some _ | None, None => true
    | _, _ => false
    end) (KEY_COLUMN_USAGE knex).

Definition foreign_key_paired (c : Column.t) : Prop :=
  present (Column.foreign_key_table c) = present (Column.foreign_key_column c).

(** ** The queries, resolved against the catalog headers *)

Definition tableInfo_fields : list (string * nat) :=
  [("TABLE_NAME", 1); ("ENGINE", 3); ("TABLE_SCHEMA", 0); ("TABLE_COLLATION", 4);
   ("TABLE_COMMENT", 5)]%nat.

Definition table_of_tuple (t : list SqlVal) : Table.t :=
  {| Table.name := decode (cell t 1);
     Table.schema := decode (cell t 0);
     Table.comment := decode (cell t 5);
     Table.collation := decode (cell t 4);
     Table.engine := decode (cell t 3) |}.

Definition columnInfo_fields : list (string * nat) :=
  [("TABLE_NAME", 1); ("COLUMN_NAME", 2); ("COLUMN_DEFAULT", 3); ("DATA_TYPE", 5);
   ("CHARACTER_MAXIMUM_LENGTH", 6); ("IS_NULLABLE", 4); ("COLUMN_KEY", 8);
   ("EXTRA", 9); ("COLLATION_NAME", 7); ("COLUMN_COMMENT", 10);
   ("REFERENCED_TABLE_NAME", 16); ("REFERENCED_COLUMN_NAME", 17);
   ("CONSTRAINT_NAME", 12); ("UPDATE_RULE", 21); ("DELETE_RULE", 22);
   ("MATCH_OPTION", 20)]%nat.

Definition column_of_tuple (t : list SqlVal) : Column.t :=
  {| Column.name := decode (cell t 2);
     Column.table := decode (cell t 1);
     Column.type := decode (cell t 5);
     Column.default_value := decode (cell t 3);
     Column.max_length := decode (cell t 6);
     Column.is_nullable := decode (cell t 4);
     Column.is_primary_key := strict_eq (decode (cell t 12)) (VStr "PRIMARY");
     Column.has_auto_increment := strict_eq (decode (cell t 9)) (VStr "auto_increment");
     Column.foreign_key_column := decode (cell t 17);
     Column.foreign_key_table := decode (cell t 16);
     Column.comment := decode (cell t 10) |}.

(** The ON clauses of [columnInfo], as positions in the joined tuple:
    columns 0..10 are [c], 11..17 are [fk], 18..24 are [rc]. *)
Definition key_usage_on : list (nat * nat) := [(14, 14); (15, 2); (11, 0)]%nat.

Definition referential_on : list (nat * nat) := [(23, 14); (19, 12); (18, 11)]%nat.

Section Resolved.

Variable knex : Connection.

Definition tableInfo_conds (table : option string) : list (nat * SqlVal) :=
  [(0%nat, SStr (database knex)); (2%nat, SStr "BASE TABLE")]
  ++ (if given table then [(1%nat, SStr (arg_value table))] else []).

Definition columns_with_keys : list (list SqlVal) :=
  left_join (on_holds key_usage_on) 7
    (map Columns.tuple (COLUMNS knex))
    (map KeyColumnUsage.tuple (KEY_COLUMN_USAGE knex)).

Definition joined_columns : list (list SqlVal) :=
  left_join (on_holds referential_on) 7 columns_with_keys
    (map ReferentialConstraints.tuple (REFERENTIAL_CONSTRAINTS knex)).

Definition columnInfo_conds (table column : option string) : list (nat * SqlVal) :=
  [(0%nat, SStr (database knex))]
  ++ (if given table then [(1%nat, SStr (arg_value table))] else [])
  ++ (if given column then [(2%nat, SStr (arg_value column))] else []).

End Resolved.

(** The shape of a tuple of the joined relation of [columnInfo]. *)
Inductive key_part (knex : Connection) (c : Columns.row) : list SqlVal -> Prop :=
| key_matched (f : KeyColumnUsage.row) :
    In f (KEY_COLUMN_USAGE knex) ->
    on_holds key_usage_on (Columns.tuple c ++ KeyColumnUsage.tuple f) = true ->
    key_part knex c (KeyColumnUsage.tuple f)
| key_missing :
    (forall f, In f (KEY_COLUMN_USAGE knex) ->
       on_holds key_usage_on (Columns.tuple c ++ KeyColumnUsage.tuple f) = false) ->
    key_part knex c (repeat SNull 7).

(** Replaces the rows of the query under evaluation by their closed form. *)
Ltac run_query rows :=
  match goal with
  | |- context [rows_of ?k ?q] => change (rows_of k q) with (Resolved rows)
  end.

(** ** The results, read off the catalog rows *)

(** The record [tableInfo] builds for a row of the tables catalog. *)
Definition table_of_row (r : Tables.row) : Table.t :=
  {| Table.name := VStr (Tables.TABLE_NAME r);
     Table.schema := VStr (Tables.TABLE_SCHEMA r);
     Table.comment := decode (Tables.TABLE_COMMENT r);
     Table.collation := decode (Tables.TABLE_COLLATION r);
     Table.engine := decode (Tables.ENGINE r) |}.

(** The rows of the tables catalog that [tableInfo] keeps. *)
Definition table_selected (knex : Connection) (table : option string)
    (r : Tables.row) : bool :=
  String.eqb (Tables.TABLE_SCHEMA r) (database knex)
  && String.eqb (Tables.TABLE_TYPE r) "BASE TABLE"
  && (if given table then String.eqb (Tables.TABLE_NAME r) (arg_value table) else true).

(** The rows of the columns catalog that [columns] and [columnInfo] keep. *)
Definition column_selected (knex : Connection) (table column : option string)
    (r : Columns.row) : bool :=
  String.eqb (Columns.TABLE_SCHEMA r) (database knex)
  && (if given table then String.eqb (Columns.TABLE_NAME r) (arg_value table) else true)
  && (if given column then String.eqb (Columns.COLUMN_NAME r) (arg_value column)
      else true).

Definition ref_of_row (r : Columns.row) : TableColumn.t :=
  {| TableColumn.table := VStr (Columns.TABLE_NAME r);
     TableColumn.column := VStr (Columns.COLUMN_NAME r) |}.

Definition columns_fields : list (string * nat) :=
  [("table_name", 1); ("column_name", 2)]%nat.

Definition columns_conds (knex : Connection) (table : option string)
    : list (nat * SqlVal) :=
  [(0%nat, SStr (database knex))]
  ++ (if given table then [(1%nat, SStr (arg_value table))] else []).

(** The fields of a [Column] that come from the columns catalog. *)
Definition catalog_fields (row : Columns.row) (r : Column.t) : Prop :=
  Column.name r = VStr (Columns.COLUMN_NAME row) /\
  Column.table r = VStr (Columns.TABLE_NAME row) /\
  Column.type r = decode (Columns.DATA_TYPE row) /\
  Column.default_value r = decode (Columns.COLUMN_DEFAULT row) /\
  Column.max_length r = decode (Columns.CHARACTER_MAXIMUM_LENGTH row) /\
  Column.is_nullable r = decode (Columns.IS_NULLABLE row) /\
  Column.has_auto_increment r = Sql.eqb (Columns.EXTRA row) (SStr "auto_increment") /\
  Column.comment r = decode (Columns.COLUMN_COMMENT row).

Definition from_catalog (knex : Connection) (table column : option string)
    (r : Column.t) : Prop :=
  exists row, In row (COLUMNS knex) /\
              column_selected knex table column row = true /\
              catalog_fields row r.

(** The fields of a [Column] that come from the key-usage catalog: those
    of a key-usage row of the selected database with the same column name
    (of whatever table), or [false] and NULLs when there is none. *)
Definition key_fields (knex : Connection) (r : Column.t) : Prop :=
  (exists f, In f (KEY_COLUMN_USAGE knex) /\
     KeyColumnUsage.CONSTRAINT_SCHEMA f = database knex /\
     VStr (KeyColumnUsage.COLUMN_NAME f) = Column.name r /\
     Column.is_primary_key r = String.eqb (KeyColumnUsage.CONSTRAINT_NAME f) "PRIMARY" /\
     Column.foreign_key_table r = decode (nullable (KeyColumnUsage.REFERENCED_TABLE_NAME f)) /\
     Column.foreign_key_column r =
       decode (nullable (KeyColumnUsage.REFERENCED_COLUMN_NAME f)))
  \/
  ((forall f, In f (KEY_COLUMN_USAGE knex) ->
      KeyColumnUsage.CONSTRAINT_SCHEMA f = database knex ->
      VStr (KeyColumnUsage.COLUMN_NAME f) <> Column.name r) /\
   Column.is_primary_key r = false /\
   Column.foreign_key_table r = VNull /\
   Column.foreign_key_column r = VNull).

(** A property of every record a call of [columnInfo] resolves to. *)
Definition every_record (P : Column.t -> Prop) (p : Promise ColumnInfo) : Prop :=
  match p with
  | Resolved (OneColumn c) => P c
  | Resolved (AllColumns cs) => Forall P cs
  | Rejected _ => True
  end.

(** No constraint of the selected database is on a column named [c]. *)
Definition unconstrained_name (knex : Connection) (c : string) : bool :=
  forallb (fun f => negb (String.eqb (KeyColumnUsage.CONSTRAINT_SCHEMA f) (database knex)
                          && String.eqb (KeyColumnUsage.COLUMN_NAME f) c))
          (KEY_COLUMN_USAGE knex).

Definition is_db_error {A : Type} (p : Promise A) : bool :=
  match p with
  | Rejected (DbError _ _) => true
  | _ => false
  end.

(** ** Lists, joins and promises *)

Lemma filter_none {A : Type} (p : A -> bool) (l : list A) :
  (forall x, In x l -> p x = false) -> filter p l = [].
Proof.
  induction l as [|x l IH]; intros Hp; simpl.
  - reflexivity.
  - rewrite (Hp x (or_introl eq_refl)). apply IH.
    intros y Hy. apply Hp. now right.
Qed.

Lemma filter_some {A : Type} (p : A -> bool) (l : list A) (x : A) :
  In x l -> p x = true -> exists y ys, filter p l = y :: ys.
Proof.
  intros Hin Hp.
  assert (Hf : In x (filter p l)) by (apply filter_In; now split).
  destruct (filter p l) as [|y ys]; [destruct Hf | now exists y, ys].
Qed.

Lemma existsb_false {A : Type} (p : A -> bool) (l : list A) :
  existsb p l = false -> forall x, In x l -> p x = false.
Proof.
  intros He x Hx. destruct (p x) eqn:Hp; [|reflexivity].
  assert (Ht : existsb p l = true) by (apply existsb_exists; now exists x).
  congruence.
Qed.

Lemma mapM_map_resolved {A B C : Type} (f : B -> Promise C) (g : A -> B) (h : A -> C) :
  (forall x, f (g x) = Resolved (h x)) ->
  forall l, mapM f (map g l) = Resolved (map h l).
Proof.
  intros Hfg l. induction l as [|x l IH]; simpl.
  - reflexivity.
  - now rewrite Hfg, IH.
Qed.

(** A tuple of a left join is a left tuple followed by a matching right
    tuple, or by NULLs when the left tuple has no match. *)
Lemma in_left_join (on : list SqlVal -> bool) (w : nat) (l r : list (list SqlVal))
    (t : list SqlVal) :
  In t (left_join on w l r) <->
  exists a, In a l /\
    ((exists b, In b r /\ on (a ++ b) = true /\ t = a ++ b) \/
     ((forall b, In b r -> on (a ++ b) = false) /\ t = a ++ repeat SNull w)).
Proof.
  unfold left_join. rewrite in_flat_map. split.
  - intros (a & Ha & Ht). exists a. split; [exact Ha|].
    destruct (filter (fun b => on (a ++ b)) r) as [|m ms] eqn:E.
    + right. destruct Ht as [<-|[]]. split; [|reflexivity].
      intros b Hb. destruct (on (a ++ b)) eqn:Hon; [|reflexivity].
      assert (Hin : In b (filter (fun b => on (a ++ b)) r))
        by (apply filter_In; now split).
      rewrite E in Hin. destruct Hin.
    + left. apply in_map_iff in Ht. destruct Ht as (b & <- & Hb).
      rewrite <- E in Hb. apply filter_In in Hb. destruct Hb as (Hb & Hon).
      now exists b.
  - intros (a & Ha & [(b & Hb & Hon & ->)|(Hnone & ->)]); exists a; (split; [exact Ha|]).
    + assert (Hin : In b (filter (fun b => on (a ++ b)) r))
        by (apply filter_In; now split).
      destruct (filter (fun b => on (a ++ b)) r) as [|m ms]; [destruct Hin|].
      apply in_map_iff. now exists b.
    + rewrite (filter_none _ r Hnone). now left.
Qed.

(** Every left tuple survives a left join. *)
Lemma left_join_keeps (on : list SqlVal -> bool) (w : nat) (l r : list (list SqlVal))
    (a : list SqlVal) :
  In a l -> exists x, In (a ++ x) (left_join on w l r).
Proof.
  intros Ha.
  destruct (filter (fun b => on (a ++ b)) r) as [|m ms] eqn:E.
  - exists (repeat SNull w). apply in_left_join. exists a. split; [exact Ha|].
    right. split; [|reflexivity].
    intros b Hb. destruct (on (a ++ b)) eqn:Hon; [|reflexivity].
    assert (Hin : In b (filter (fun b => on (a ++ b)) r))
      by (apply filter_In; now split).
    rewrite E in Hin. destruct Hin.
  - assert (Hm : In m (filter (fun b => on (a ++ b)) r)) by (rewrite E; now left).
    apply filter_In in Hm. destruct Hm as (Hm & Hon).
    exists m. apply in_left_join. exists a. split; [exact Ha|]. left. now exists m.
Qed.

Lemma in_columns_with_keys knex t :
  In t (columns_with_keys knex) <->
  exists c x, In c (COLUMNS knex) /\ key_part knex c x /\ t = Columns.tuple c ++ x.
Proof.
  unfold columns_with_keys. rewrite in_left_join. split.
  - intros (a & Ha & H). apply in_map_iff in Ha. destruct Ha as (c & <- & Hc).
    destruct H as [(b & Hb & Hon & ->)|(Hnone & ->)].
    + apply in_map_iff in Hb. destruct Hb as (f & <- & Hf).
      exists c, (KeyColumnUsage.tuple f). repeat split; try assumption.
      now apply key_matched.
    + exists c, (repeat SNull 7). repeat split; try assumption.
      apply key_missing. intros f Hf. apply Hnone. now apply in_map.
  - intros (c & x & Hc & Hx & ->). exists (Columns.tuple c). split; [now apply in_map|].
    destruct Hx as [f Hf Hon|Hnone].
    + left. exists (KeyColumnUsage.tuple f). repeat split; try assumption.
      now apply in_map.
    + right. split; [|reflexivity].
      intros b Hb. apply in_map_iff in Hb. destruct Hb as (f & <- & Hf). now apply Hnone.
Qed.

Lemma in_joined_columns knex t :
  In t (joined_columns knex) ->
  exists c x y, In c (COLUMNS knex) /\ key_part knex c x /\
                t = (Columns.tuple c ++ x) ++ y.
Proof.
  unfold joined_columns. rewrite in_left_join.
  intros (a & Ha & H). apply in_columns_with_keys in Ha.
  destruct Ha as (c & x & Hc & Hx & ->).
  destruct H as [(b & _ & _ & ->)|(_ & ->)]; eexists c, x, _; eauto.
Qed.

Lemma joined_columns_keeps knex c :
  In c (COLUMNS knex) ->
  exists x y, In ((Columns.tuple c ++ x) ++ y) (joined_columns knex).
Proof.
  intros Hc.
  destruct (left_join_keeps (on_holds key_usage_on) 7
              (map Columns.tuple (COLUMNS knex))
              (map KeyColumnUsage.tuple (KEY_COLUMN_USAGE knex))
              (Columns.tuple c) (in_map _ _ _ Hc)) as (x & Hx).
  destruct (left_join_keeps (on_holds referential_on) 7 _
              (map ReferentialConstraints.tuple (REFERENTIAL_CONSTRAINTS knex))
              _ Hx) as (y & Hy).
  now exists x, y.
Qed.

(** ** The methods over an arbitrary catalog *)

Lemma table_of_first_project (t : list SqlVal) :
  table_of_first (VObject (project tableInfo_fields t)) = Resolved (table_of_tuple t).
Proof. reflexivity. Qed.

Lemma table_of_record_project (t : list SqlVal) :
  table_of_record (VObject (project tableInfo_fields t)) = Resolved (table_of_tuple t).
Proof. reflexivity. Qed.

Lemma column_of_first_project (t : list SqlVal) :
  column_of_first (VObject (project columnInfo_fields t)) = Resolved (column_of_tuple t).
Proof. reflexivity. Qed.

Lemma column_of_record_project (t : list SqlVal) :
  column_of_record (VObject (project columnInfo_fields t)) = Resolved (column_of_tuple t).
Proof. reflexivity. Qed.

Lemma given_nonempty (s : string) : s <> EmptyString -> given (Some s) = true.
Proof.
  intros Hs. unfold given, truthy.
  destruct (String.eqb s EmptyString) eqn:E; [|reflexivity].
  apply String.eqb_eq in E. contradiction.
Qed.

(** [tableInfo] in closed form: the kept tuples are the base tables of the
    selected database, narrowed to the name when one is given. *)
Lemma tableInfo_resolved knex table :
  tableInfo knex table =
  let kept := filter (where_holds (tableInfo_conds knex table))
                (map Tables.tuple (TABLES knex)) in
  if given table then
    match kept with
    | t :: _ => Resolved (OneTable (table_of_tuple t))
    | [] => Rejected (TypeError "Cannot read property 'TABLE_NAME' of undefined")
    end
  else Resolved (AllTables (map table_of_tuple kept)).
Proof.
  unfold tableInfo, tableInfo_conds, await. destruct (given table); cbv zeta.
  - run_query (map (project tableInfo_fields)
                 (firstn 1 (filter (where_holds
                    ([(0%nat, SStr (database knex)); (2%nat, SStr "BASE TABLE")]
                     ++ [(1%nat, SStr (arg_value table))]))
                    (map Tables.tuple (TABLES knex))))).
    destruct (filter _ _) as [|t ts]; reflexivity.
  - run_query (map (project tableInfo_fields)
                 (filter (where_holds
                    ([(0%nat, SStr (database knex)); (2%nat, SStr "BASE TABLE")] ++ []))
                    (map Tables.tuple (TABLES knex)))).
    cbn [bind limit_one tableInfo_query where_ from select start array_map].
    rewrite map_map.
    now rewrite (mapM_map_resolved table_of_record _ table_of_tuple
                   table_of_record_project).
Qed.

(** [columnInfo] in closed form. *)
Lemma columnInfo_resolved knex table column :
  columnInfo knex table column =
  let kept := filter (where_holds (columnInfo_conds knex table column))
                (joined_columns knex) in
  if given column then
    match kept with
    | t :: _ => Resolved (OneColumn (column_of_tuple t))
    | [] => Rejected (TypeError "Cannot read property 'COLUMN_NAME' of undefined")
    end
  else Resolved (AllColumns (map column_of_tuple kept)).
Proof.
  unfold columnInfo, columnInfo_conds, await.
  destruct (given table), (given column); cbv zeta.
  - run_query (map (project columnInfo_fields)
                 (firstn 1 (filter (where_holds
                    ([(0%nat, SStr (database knex))]
                     ++ [(1%nat, SStr (arg_value table))]
                     ++ [(2%nat, SStr (arg_value column))]))
                    (joined_columns knex)))).
    destruct (filter _ _) as [|t ts]; reflexivity.
  - run_query (map (project columnInfo_fields)
                 (filter (where_holds
                    ([(0%nat, SStr (database knex))]
                     ++ [(1%nat, SStr (arg_value table))] ++ []))
                    (joined_columns knex))).
    cbn [bind limit_one columnInfo_query where_ andWhere from select start leftJoin
         array_map].
    rewrite map_map.
    now rewrite (mapM_map_resolved column_of_record _ column_of_tuple
                   column_of_record_project).
  - run_query (map (project columnInfo_fields)
                 (firstn 1 (filter (where_holds
                    ([(0%nat, SStr (database knex))]
                     ++ [] ++ [(2%nat, SStr (arg_value column))]))
                    (joined_columns knex)))).
    destruct (filter _ _) as [|t ts]; reflexivity.
  - run_query (map (project columnInfo_fields)
                 (filter (where_holds ([(0%nat, SStr (database knex))] ++ [] ++ []))
                    (joined_columns knex))).
    cbn [bind limit_one columnInfo_query where_ andWhere from select start leftJoin
         array_map].
    rewrite map_map.
    now rewrite (mapM_map_resolved column_of_record _ column_of_tuple
                   column_of_record_project).
Qed.

Lemma tableInfo_conds_on_row knex t r :
  t <> EmptyString ->
  where_holds (tableInfo_conds knex (Some t)) (Tables.tuple r) =
  String.eqb (Tables.TABLE_SCHEMA r) (database knex)
  && String.eqb (Tables.TABLE_TYPE r) "BASE TABLE"
  && String.eqb (Tables.TABLE_NAME r) t.
Proof.
  intros Ht. unfold tableInfo_conds. rewrite (given_nonempty t Ht).
  unfold where_holds, cell, Tables.tuple. simpl.
  now rewrite andb_true_r, andb_assoc.
Qed.

Lemma columnInfo_conds_on_tuple knex t c r x y :
  t <> EmptyString -> c <> EmptyString ->
  where_holds (columnInfo_conds knex (Some t) (Some c)) ((Columns.tuple r ++ x) ++ y) =
  String.eqb (Columns.TABLE_SCHEMA r) (database knex)
  && String.eqb (Columns.TABLE_NAME r) t
  && String.eqb (Columns.COLUMN_NAME r) c.
Proof.
  intros Ht Hc. unfold columnInfo_conds.
  rewrite (given_nonempty t Ht), (given_nonempty c Hc).
  unfold where_holds, cell, Columns.tuple. simpl.
  now rewrite andb_true_r, andb_assoc.
Qed.

(** [hasTable] and [hasColumn] never look at the catalog. *)
Lemma hasTable_constant knex t : hasTable knex t = Resolved true.
Proof. reflexivity. Qed.

Lemma hasColumn_constant knex t c : hasColumn knex t c = Resolved true.
Proof. reflexivity. Qed.

(** Had the builders been awaited: the count of [hasTable] runs, the
    count of [hasColumn] names a column the tables catalog does not have. *)
Lemma hasTable_query_counts knex t :
  await knex (hasTable_query knex t) =
  Resolved (VObject [("count",
    VNum (Z.of_nat (List.length
      (filter (where_holds [(0%nat, SStr (database knex)); (1%nat, SStr t)])
              (map Tables.tuple (TABLES knex))))))]).
Proof. reflexivity. Qed.

Lemma hasColumn_query_rejected knex t c :
  await knex (hasColumn_query knex t c) =
  Rejected (DbError "ER_BAD_FIELD_ERROR" "column_name").
Proof. reflexivity. Qed.

Lemma tables_query_rejected knex :
  await knex (tables_query knex) =
  Rejected (DbError "ER_BAD_FIELD_ERROR" "table_namename").
Proof. reflexivity. Qed.

(** With an empty name the test [if (table)] fails and the list is returned. *)
Lemma tableInfo_empty_name knex : tableInfo knex (Some EmptyString) = tableInfo knex None.
Proof. reflexivity. Qed.

(** The list forms always resolve. *)
Lemma tableInfo_list_resolves knex :
  exists ts, tableInfo knex None = Resolved (AllTables ts).
Proof. rewrite tableInfo_resolved. simpl. eauto. Qed.

Lemma columnInfo_list_resolves knex table :
  exists cs, columnInfo knex table None = Resolved (AllColumns cs).
Proof. rewrite columnInfo_resolved. simpl. eauto. Qed.

(** An existing table is found, and the record carries its name. *)
Lemma tableInfo_existing_table knex t :
  t <> EmptyString -> names_base_table knex t = true ->
  exists r, tableInfo knex (Some t) = Resolved (OneTable r) /\ Table.name r = VStr t.
Proof.
  intros Ht Hex. rewrite tableInfo_resolved, (given_nonempty t Ht). cbv zeta.
  apply existsb_exists in Hex. destruct Hex as (row & Hin & Hrow).
  destruct (filter_some (where_holds (tableInfo_conds knex (Some t)))
              (map Tables.tuple (TABLES knex)) (Tables.tuple row)) as (y & ys & E).
  - now apply in_map.
  - now rewrite tableInfo_conds_on_row.
  - rewrite E. exists (table_of_tuple y). split; [reflexivity|].
    assert (Hy : In y (filter (where_holds (tableInfo_conds knex (Some t)))
                         (map Tables.tuple (TABLES knex)))) by (rewrite E; now left).
    apply filter_In in Hy. destruct Hy as (Hy & Hw).
    apply in_map_iff in Hy. destruct Hy as (r' & <- & _).
    rewrite tableInfo_conds_on_row in Hw by assumption.
    apply andb_true_iff in Hw. destruct Hw as (_ & Hn).
    apply String.eqb_eq in Hn. simpl. now rewrite Hn.
Qed.

(** An existing column is found, and the record carries its table and name. *)
Lemma columnInfo_existing_column knex t c :
  t <> EmptyString -> c <> EmptyString -> names_column knex t c = true ->
  exists r, columnInfo knex (Some t) (Some c) = Resolved (OneColumn r)
            /\ Column.table r = VStr t /\ Column.name r = VStr c.
Proof.
  intros Ht Hc Hex. rewrite columnInfo_resolved, (given_nonempty c Hc). cbv zeta.
  apply existsb_exists in Hex. destruct Hex as (row & Hin & Hrow).
  destruct (joined_columns_keeps knex row Hin) as (x & y & Hxy).
  destruct (filter_some (where_holds (columnInfo_conds knex (Some t) (Some c)))
              (joined_columns knex) _ Hxy) as (u & us & E).
  - now rewrite columnInfo_conds_on_tuple.
  - rewrite E. exists (column_of_tuple u). split; [reflexivity|].
    assert (Hu : In u (filter (where_holds (columnInfo_conds knex (Some t) (Some c)))
                         (joined_columns knex))) by (rewrite E; now left).
    apply filter_In in Hu. destruct Hu as (Hu & Hw).
    apply in_joined_columns in Hu. destruct Hu as (r' & x' & y' & _ & _ & ->).
    rewrite columnInfo_conds_on_tuple in Hw by assumption.
    apply andb_true_iff in Hw. destruct Hw as (Hw & Hcn).
    apply andb_true_iff in Hw. destruct Hw as (_ & Htn).
    apply String.eqb_eq in Hcn, Htn. simpl. now rewrite Hcn, Htn.
Qed.

(** ** The scenario of the specification, evaluated *)

Example scenario_tableInfo_users :
  tableInfo app (Some "users") =
  Resolved (OneTable {| Table.name := VStr "users"; Table.schema := VStr "app";
                        Table.comment := VStr EmptyString;
                        Table.collation := VStr "utf8mb4_general_ci";
                        Table.engine := VStr "InnoDB" |}).
Proof. reflexivity. Qed.

Example scenario_columnInfo_users_id :
  exists c, columnInfo app (Some "users") (Some "id") = Resolved (OneColumn c) /\
            Column.is_primary_key c = true /\ Column.has_auto_increment c = true.
Proof. eexists. split; [vm_compute; reflexivity|]. split; reflexivity. Qed.

Example scenario_columnInfo_users_org_id :
  exists c, columnInfo app (Some "users") (Some "org_id") = Resolved (OneColumn c) /\
            Column.foreign_key_table c = VStr "orgs" /\
            Column.foreign_key_column c = VStr "id".
Proof. eexists. split; [vm_compute; reflexivity|]. split; reflexivity. Qed.

Example scenario_primary_users : primary app "users" = Resolved (VStr "id").
Proof. reflexivity. Qed.

Example scenario_primary_unknown_table :
  primary app "ghost" = Rejected (DbError "ER_NO_SUCH_TABLE" "ghost").
Proof. reflexivity. Qed.

(** The list form repeats [users.id]: its row is joined to the primary key
    of [users] and to the primary key of [orgs]. *)
Example scenario_columnInfo_users_names :
  exists cs, columnInfo app (Some "users") None = Resolved (AllColumns cs) /\
             map Column.name cs = [VStr "id"; VStr "id"; VStr "name"; VStr "org_id"].
Proof. eexists. split; [vm_compute; reflexivity|]. reflexivity. Qed.

(** ** The claims *)

(** C1, as stated, fails: in the example catalog no table is named
    [ghost], and [tableInfo("ghost")] is rejected with a TypeError instead
    of resolving to a "not found" value. *)
Lemma tableInfo_ghost_rejected :
  table_exists app "ghost" = false /\
  tableInfo app (Some "ghost") =
  Rejected (TypeError "Cannot read property 'TABLE_NAME' of undefined").
Proof. split; reflexivity. Qed.

(** C1, amended: for every non-empty name that names no base table of the
    selected database, [tableInfo(name)] is rejected with the TypeError of
    reading [TABLE_NAME] from the [undefined] first row. *)
Theorem tableInfo_missing_table_throws knex t :
  t <> EmptyString -> names_base_table knex t = false ->
  tableInfo knex (Some t) =
  Rejected (TypeError "Cannot read property 'TABLE_NAME' of undefined").
Proof.
  intros Ht Hno. rewrite tableInfo_resolved, (given_nonempty t Ht). cbv zeta.
  rewrite filter_none; [reflexivity|].
  intros x Hx. apply in_map_iff in Hx. destruct Hx as (r & <- & Hr).
  rewrite tableInfo_conds_on_row by assumption.
  exact (existsb_false _ _ Hno r Hr).
Qed.

Lemma tableInfo_missing_table_throws_witness :
  "nobody" <> EmptyString /\ names_base_table app "nobody" = false /\
  tableInfo app (Some "nobody") =
  Rejected (TypeError "Cannot read property 'TABLE_NAME' of undefined").
Proof.
  assert (Hne : "nobody" <> EmptyString) by discriminate.
  assert (Hno : names_base_table app "nobody" = false) by reflexivity.
  exact (conj Hne (conj Hno (tableInfo_missing_table_throws app "nobody" Hne Hno))).
Defined.

(** C2, as stated, fails: table [users] of the example catalog has no
    column [missing_col], and [columnInfo("users", "missing_col")] is
    rejected with a TypeError instead of resolving to a "not found" value. *)
Lemma columnInfo_missing_col_rejected :
  names_column app "users" "missing_col" = false /\
  columnInfo app (Some "users") (Some "missing_col") =
  Rejected (TypeError "Cannot read property 'COLUMN_NAME' of undefined").
Proof. split; reflexivity. Qed.

(** C2, amended: for every non-empty table name and non-empty column name
    such that the table has no such column, [columnInfo(table, column)] is
    rejected with the TypeError of reading [COLUMN_NAME] from the
    [undefined] first row. *)
Theorem columnInfo_missing_column_throws knex t c :
  t <> EmptyString -> c <> EmptyString -> names_column knex t c = false ->
  columnInfo knex (Some t) (Some c) =
  Rejected (TypeError "Cannot read property 'COLUMN_NAME' of undefined").
Proof.
  intros Ht Hc Hno. rewrite columnInfo_resolved, (given_nonempty c Hc). cbv zeta.
  rewrite filter_none; [reflexivity|].
  intros u Hu. apply in_joined_columns in Hu.
  destruct Hu as (r & x & y & Hr & _ & ->).
  rewrite columnInfo_conds_on_tuple by assumption.
  exact (existsb_false _ _ Hno r Hr).
Qed.

Lemma columnInfo_missing_column_throws_witness :
  "orgs" <> EmptyString /\ "name" <> EmptyString /\ names_column app "orgs" "name" = false /\
  columnInfo app (Some "orgs") (Some "name") =
  Rejected (TypeError "Cannot read property 'COLUMN_NAME' of undefined").
Proof.
  assert (Ht : "orgs" <> EmptyString) by discriminate.
  assert (Hc : "name" <> EmptyString) by discriminate.
  assert (Hno : names_column app "orgs" "name" = false) by reflexivity.
  exact (conj Ht (conj Hc (conj Hno
           (columnInfo_missing_column_throws app "orgs" "name" Ht Hc Hno)))).
Defined.

(** C3, on the example catalog: [hasTable("ghost")] resolves to [true]
    although no table is named [ghost], and [tables()] is rejected, so the
    names [tables()] returns are not the names [hasTable] accepts. *)
Theorem hasTable_true_for_unlisted_name :
  table_exists app "ghost" = false /\
  hasTable app "ghost" = Resolved true /\
  tables app = Rejected (DbError "ER_BAD_FIELD_ERROR" "table_namename").
Proof. repeat split. Qed.

(** C4, on the example catalog: table [users] has no column
    [missing_col], and [hasColumn("users", "missing_col")] resolves to
    [true]. *)
Theorem hasColumn_true_for_missing_column :
  names_column app "users" "missing_col" = false /\
  hasColumn app "users" "missing_col" = Resolved true.
Proof. split; reflexivity. Qed.

(** The ON clause of the first join of [columnInfo] compares the table
    name of the key-usage row with itself: what is left is the column
    name and the schema. *)
Lemma key_usage_on_holds (c : Columns.row) (f : KeyColumnUsage.row) :
  on_holds key_usage_on (Columns.tuple c ++ KeyColumnUsage.tuple f) =
  String.eqb (KeyColumnUsage.COLUMN_NAME f) (Columns.COLUMN_NAME c)
  && String.eqb (KeyColumnUsage.CONSTRAINT_SCHEMA f) (Columns.TABLE_SCHEMA c).
Proof.
  unfold on_holds, key_usage_on, cell, Columns.tuple, KeyColumnUsage.tuple. simpl.
  now rewrite String.eqb_refl, andb_true_r.
Qed.

(** The ON clause of the second join: table name, constraint name and
    constraint schema of the key-usage row. *)
Lemma referential_on_holds (c : Columns.row) (f : KeyColumnUsage.row)
    (r : ReferentialConstraints.row) :
  on_holds referential_on
    ((Columns.tuple c ++ KeyColumnUsage.tuple f) ++ ReferentialConstraints.tuple r) =
  String.eqb (ReferentialConstraints.TABLE_NAME r) (KeyColumnUsage.TABLE_NAME f)
  && String.eqb (ReferentialConstraints.CONSTRAINT_NAME r) (KeyColumnUsage.CONSTRAINT_NAME f)
  && String.eqb (ReferentialConstraints.CONSTRAINT_SCHEMA r)
       (KeyColumnUsage.CONSTRAINT_SCHEMA f).
Proof.
  unfold on_holds, referential_on, cell, Columns.tuple, KeyColumnUsage.tuple,
    ReferentialConstraints.tuple. simpl.
  now rewrite andb_true_r, andb_assoc.
Qed.

(** The joins of the built query are the two left joins of the closed form. *)
Lemma columnInfo_first_join knex :
  base <- load knex (source (columnInfo_query knex)) ;;
  rel <- apply_joins knex (firstn 1 (joins (columnInfo_query knex))) base ;;
  Resolved (body rel)
  = Resolved (columns_with_keys knex).
Proof. reflexivity. Qed.

Lemma columnInfo_both_joins knex :
  base <- load knex (source (columnInfo_query knex)) ;;
  rel <- apply_joins knex (joins (columnInfo_query knex)) base ;;
  Resolved (body rel)
  = Resolved (joined_columns knex).
Proof. reflexivity. Qed.

(** C5, on a catalog where it fails: [events.id] exists and is no part of
    a primary key, and [columnInfo("events", "id")] resolves to a record
    with the right table and name but [is_primary_key = true]. *)
Theorem columnInfo_flags_foreign_primary :
  names_column events_catalog "events" "id" = true /\
  declared_primary events_catalog "events" "id" = false /\
  exists c,
    columnInfo events_catalog (Some "events") (Some "id") = Resolved (OneColumn c) /\
    Column.table c = VStr "events" /\ Column.name c = VStr "id" /\
    Column.is_primary_key c = true.
Proof.
  split; [reflexivity|]. split; [reflexivity|].
  eexists. split; [vm_compute; reflexivity|]. repeat split.
Qed.

(** C6, on a catalog where it fails: the first join of [columnInfo] pairs
    the column row of [events.id] with the key-usage row of the primary
    key of [users]. *)
Theorem key_usage_join_crosses_tables :
  exists c f rows,
    In c (COLUMNS events_catalog) /\ In f (KEY_COLUMN_USAGE events_catalog) /\
    Columns.TABLE_NAME c = "events" /\ KeyColumnUsage.TABLE_NAME f = "users" /\
    (base <- load events_catalog (source (columnInfo_query events_catalog)) ;;
     rel <- apply_joins events_catalog
              (firstn 1 (joins (columnInfo_query events_catalog))) base ;;
     Resolved (body rel)) = Resolved rows /\
    In (Columns.tuple c ++ KeyColumnUsage.tuple f) rows.
Proof.
  exists (column "app" "events" "id" "int" EmptyString),
         (key_usage "app" "PRIMARY" "users" "id" None),
         (columns_with_keys events_catalog).
  split; [simpl; tauto|]. split; [simpl; tauto|].
  split; [reflexivity|]. split; [reflexivity|].
  split; [apply columnInfo_first_join|].
  apply in_columns_with_keys.
  exists (column "app" "events" "id" "int" EmptyString),
         (KeyColumnUsage.tuple (key_usage "app" "PRIMARY" "users" "id" None)).
  split; [simpl; tauto|]. split; [|reflexivity].
  apply key_matched; [simpl; tauto|reflexivity].
Qed.

(** C7, for every catalog: [tables()] is rejected, because the query
    selects the column [table_namename], which the tables catalog does
    not have. *)
Theorem tables_rejected knex :
  tables knex = Rejected (DbError "ER_BAD_FIELD_ERROR" "table_namename").
Proof. unfold tables. now rewrite tables_query_rejected. Qed.

(** C8: for a table of the selected database whose key listing has rows
    under the constraint [PRIMARY], [primary(table)] resolves to the
    column name of the first of them. *)
Theorem primary_first_key_column knex t k rest :
  table_exists knex t = true ->
  keys_of knex t "PRIMARY" = k :: rest ->
  primary knex t = Resolved (VStr (Keys.Column_name k)).
Proof.
  intros Hex Hkeys. unfold primary, raw.
  rewrite String.eqb_refl, Hex, Hkeys. reflexivity.
Qed.

Lemma primary_first_key_column_witness :
  table_exists app "users" = true /\
  keys_of app "users" "PRIMARY" =
    [{| Keys.Schema := "app"; Keys.Table := "users"; Keys.Key_name := "PRIMARY";
        Keys.Seq_in_index := 1; Keys.Column_name := "id" |}] /\
  primary app "users" = Resolved (VStr "id").
Proof.
  split; [reflexivity|]. split; [reflexivity|].
  apply (primary_first_key_column app "users"
           {| Keys.Schema := "app"; Keys.Table := "users"; Keys.Key_name := "PRIMARY";
              Keys.Seq_in_index := 1; Keys.Column_name := "id" |} []);
    reflexivity.
Defined.

(** Every tuple of the joined relation gives a record with the two
    foreign-key fields paired. *)
Lemma joined_tuple_paired knex t :
  references_paired knex = true ->
  In t (joined_columns knex) -> foreign_key_paired (column_of_tuple t).
Proof.
  intros Hwf Ht. apply in_joined_columns in Ht.
  destruct Ht as (c & x & y & _ & Hx & ->).
  unfold foreign_key_paired, column_of_tuple, cell, Columns.tuple.
  destruct Hx as [f Hf _|_].
  - unfold references_paired in Hwf. rewrite forallb_forall in Hwf.
    specialize (Hwf f Hf). unfold KeyColumnUsage.tuple. simpl.
    destruct (KeyColumnUsage.REFERENCED_TABLE_NAME f),
             (KeyColumnUsage.REFERENCED_COLUMN_NAME f);
      try discriminate; reflexivity.
  - reflexivity.
Qed.

(** C9: over a catalog whose key-usage rows have their two REFERENCED
    columns both filled or both NULL, every record [columnInfo] resolves
    to, in the single and in the list form, has [foreign_key_table] and
    [foreign_key_column] both present or both absent. *)
Theorem columnInfo_foreign_key_paired knex table column :
  references_paired knex = true ->
  match columnInfo knex table column with
  | Resolved (OneColumn c) => foreign_key_paired c
  | Resolved (AllColumns cs) => Forall foreign_key_paired cs
  | Rejected _ => True
  end.
Proof.
  intros Hwf. rewrite columnInfo_resolved. cbv zeta.
  assert (Hall : Forall (fun t => foreign_key_paired (column_of_tuple t))
                   (filter (where_holds (columnInfo_conds knex table column))
                      (joined_columns knex))).
  { apply Forall_forall. intros t Ht. apply filter_In in Ht.
    now apply (joined_tuple_paired knex). }
  destruct (given column).
  - destruct Hall; [exact I|assumption].
  - now apply Forall_map.
Qed.

Lemma columnInfo_foreign_key_paired_witness :
  references_paired app = true /\
  match columnInfo app (Some "users") None with
  | Resolved (OneColumn c) => foreign_key_paired c
  | Resolved (AllColumns cs) => Forall foreign_key_paired cs
  | Rejected _ => True
  end.
Proof.
  split; [reflexivity|].
  apply (columnInfo_foreign_key_paired app (Some "users") None). reflexivity.
Defined.

(** C10: the object literal of the single-column branch of [columnInfo]
    and the callback of the list branch build the same record from every
    raw row (and throw the same error on a row that is [undefined]). *)
Theorem column_of_first_is_column_of_record (rawColumn : Value) :
  column_of_first rawColumn = column_of_record rawColumn.
Proof. reflexivity. Qed.

(** ** Further properties of the methods *)

Lemma filter_map_swap {A B : Type} (p : B -> bool) (f : A -> B) (l : list A) :
  filter p (map f l) = map f (filter (fun x => p (f x)) l).
Proof.
  induction l as [|x l IH]; simpl; [reflexivity|].
  destruct (p (f x)); simpl; now rewrite IH.
Qed.

Lemma head_filter_and {A : Type} (p q : A -> bool) (l : list A) :
  hd_error (filter (fun x => p x && q x) l) = find q (filter p l).
Proof.
  induction l as [|x l IH]; simpl; [reflexivity|].
  destruct (p x); simpl; [destruct (q x); simpl|]; auto.
Qed.

Lemma find_map {A B : Type} (q : B -> bool) (f : A -> B) (l : list A) :
  find q (map f l) = option_map f (find (fun x => q (f x)) l).
Proof.
  induction l as [|x l IH]; simpl; [reflexivity|].
  destruct (q (f x)); [reflexivity|exact IH].
Qed.

Lemma match_head {A B : Type} (l : list A) (f : A -> B) (d : B) :
  match l with x :: _ => f x | [] => d end =
  match hd_error l with Some x => f x | None => d end.
Proof. now destruct l. Qed.

Lemma where_holds_app (a b : list (nat * SqlVal)) (t : list SqlVal) :
  where_holds (a ++ b) t = where_holds a t && where_holds b t.
Proof. unfold where_holds. apply forallb_app. Qed.

Lemma strict_eq_decode (v : SqlVal) (s : string) :
  strict_eq (decode v) (VStr s) = Sql.eqb v (SStr s).
Proof. now destruct v. Qed.

Lemma table_of_tuple_row (r : Tables.row) :
  table_of_tuple (Tables.tuple r) = table_of_row r.
Proof. reflexivity. Qed.

Lemma tableInfo_conds_selected knex table r :
  where_holds (tableInfo_conds knex table) (Tables.tuple r) = table_selected knex table r.
Proof.
  unfold tableInfo_conds, table_selected, where_holds, cell, Tables.tuple.
  destruct (given table); simpl; now rewrite ?andb_true_r, ?andb_assoc.
Qed.

(** The tuples [tableInfo] keeps are the tuples of the selected rows. *)
Lemma tableInfo_kept knex table :
  filter (where_holds (tableInfo_conds knex table)) (map Tables.tuple (TABLES knex)) =
  map Tables.tuple (filter (table_selected knex table) (TABLES knex)).
Proof.
  rewrite filter_map_swap. f_equal. apply filter_ext.
  intros r. apply tableInfo_conds_selected.
Qed.

(** X1: [tableInfo()] resolves, for every catalog, to one record per base
    table of the selected database, in catalog order; views and the
    tables of other databases are left out. *)
Theorem tableInfo_lists_base_tables knex :
  tableInfo knex None =
  Resolved (AllTables (map table_of_row (filter (table_selected knex None) (TABLES knex)))).
Proof.
  rewrite tableInfo_resolved. cbv zeta. change (given None) with false. cbv iota.
  rewrite tableInfo_kept, map_map. reflexivity.
Qed.

(** X2: for a non-empty name of a base table of the selected database,
    [tableInfo(name)] resolves to the record of a row of the tables
    catalog with that schema, type and name. *)
Theorem tableInfo_found knex t :
  t <> EmptyString -> names_base_table knex t = true ->
  exists row,
    In row (TABLES knex) /\
    Tables.TABLE_SCHEMA row = database knex /\
    Tables.TABLE_TYPE row = "BASE TABLE" /\
    Tables.TABLE_NAME row = t /\
    tableInfo knex (Some t) = Resolved (OneTable (table_of_row row)).
Proof.
  intros Ht Hex. rewrite tableInfo_resolved, (given_nonempty t Ht). cbv zeta.
  rewrite tableInfo_kept.
  apply existsb_exists in Hex. destruct Hex as (r0 & Hin0 & Hr0).
  destruct (filter_some (table_selected knex (Some t)) (TABLES knex) r0 Hin0)
    as (row & rest & E).
  - unfold table_selected. now rewrite (given_nonempty t Ht).
  - assert (Hrow : In row (filter (table_selected knex (Some t)) (TABLES knex)))
      by (rewrite E; now left).
    apply filter_In in Hrow. destruct Hrow as (Hin & Hsel).
    unfold table_selected in Hsel. rewrite (given_nonempty t Ht) in Hsel.
    apply andb_true_iff in Hsel. destruct Hsel as (Hsel & Hn).
    apply andb_true_iff in Hsel. destruct Hsel as (Hs & Hty).
    apply String.eqb_eq in Hn, Hs, Hty.
    exists row. rewrite E. simpl. repeat split; assumption.
Qed.

Lemma tableInfo_found_witness :
  "orgs" <> EmptyString /\ names_base_table app "orgs" = true /\
  exists row,
    In row (TABLES app) /\
    Tables.TABLE_SCHEMA row = database app /\
    Tables.TABLE_TYPE row = "BASE TABLE" /\
    Tables.TABLE_NAME row = "orgs" /\
    tableInfo app (Some "orgs") = Resolved (OneTable (table_of_row row)).
Proof.
  assert (Hne : "orgs" <> EmptyString) by discriminate.
  assert (Hex : names_base_table app "orgs" = true) by reflexivity.
  exact (conj Hne (conj Hex (tableInfo_found app "orgs" Hne Hex))).
Defined.

(** X3: the single form of [tableInfo] is a search in the list form: for
    a non-empty name, [tableInfo(name)] resolves to the first record of
    [tableInfo()] with that name, and is rejected with the TypeError when
    the list has none. *)
Theorem tableInfo_single_from_list knex t ts :
  t <> EmptyString ->
  tableInfo knex None = Resolved (AllTables ts) ->
  tableInfo knex (Some t) =
  match find (fun r => strict_eq (Table.name r) (VStr t)) ts with
  | Some r => Resolved (OneTable r)
  | None => Rejected (TypeError "Cannot read property 'TABLE_NAME' of undefined")
  end.
Proof.
  intros Ht Hlist. rewrite tableInfo_resolved in Hlist. cbv zeta in Hlist.
  change (given None) with false in Hlist. cbv iota in Hlist.
  injection Hlist as <-.
  rewrite tableInfo_resolved, (given_nonempty t Ht). cbv zeta.
  rewrite !tableInfo_kept, map_map, find_map.
  change (fun x => strict_eq (Table.name (table_of_tuple (Tables.tuple x))) (VStr t))
    with (fun x => String.eqb (Tables.TABLE_NAME x) t).
  assert (E : filter (table_selected knex (Some t)) (TABLES knex) =
              filter (fun r => table_selected knex None r
                               && String.eqb (Tables.TABLE_NAME r) t) (TABLES knex)).
  { apply filter_ext. intros r. unfold table_selected.
    rewrite (given_nonempty t Ht). change (given None) with false. simpl.
    now rewrite andb_true_r. }
  rewrite E, <- head_filter_and. clear E.
  destruct (filter _ (TABLES knex)); reflexivity.
Qed.

Lemma tableInfo_single_from_list_witness :
  "orgs" <> EmptyString /\
  tableInfo app None =
    Resolved (AllTables [table_of_row (base_table "app" "users");
                         table_of_row (base_table "app" "orgs")]) /\
  tableInfo app (Some "orgs") =
    Resolved (OneTable (table_of_row (base_table "app" "orgs"))).
Proof.
  assert (Hne : "orgs" <> EmptyString) by discriminate.
  assert (Hl : tableInfo app None =
               Resolved (AllTables [table_of_row (base_table "app" "users");
                                    table_of_row (base_table "app" "orgs")]))
    by reflexivity.
  exact (conj Hne (conj Hl (tableInfo_single_from_list app "orgs" _ Hne Hl))).
Defined.

Lemma columns_conds_selected knex table r :
  where_holds (columns_conds knex table) (Columns.tuple r) =
  column_selected knex table None r.
Proof.
  unfold columns_conds, column_selected, where_holds, cell, Columns.tuple.
  destruct (given table); simpl; now rewrite ?andb_true_r, ?andb_assoc.
Qed.

Lemma columnInfo_conds_selected knex table column r x y :
  where_holds (columnInfo_conds knex table column) ((Columns.tuple r ++ x) ++ y) =
  column_selected knex table column r.
Proof.
  unfold columnInfo_conds, column_selected, where_holds, cell, Columns.tuple.
  destruct (given table), (given column); simpl;
    now rewrite ?andb_true_r, ?andb_assoc.
Qed.

Lemma ref_of_record_project (t : list SqlVal) :
  (table_name <- get (VObject (project columns_fields t)) "table_name" ;;
   column_name <- get (VObject (project columns_fields t)) "column_name" ;;
   Resolved {| TableColumn.table := table_name; TableColumn.column := column_name |})
  = Resolved {| TableColumn.table := decode (cell t 1);
                TableColumn.column := decode (cell t 2) |}.
Proof. reflexivity. Qed.

(** [columns] in closed form. *)
Lemma columns_resolved knex table :
  columns knex table =
  Resolved (map ref_of_row (filter (column_selected knex table None) (COLUMNS knex))).
Proof.
  assert (Hkept : filter (where_holds (columns_conds knex table))
                    (map Columns.tuple (COLUMNS knex)) =
                  map Columns.tuple
                    (filter (column_selected knex table None) (COLUMNS knex))).
  { rewrite filter_map_swap. f_equal. apply filter_ext.
    intros r. apply columns_conds_selected. }
  unfold columns, await. unfold columns_conds in Hkept.
  destruct (given table); cbv zeta.
  - run_query (map (project columns_fields)
                 (filter (where_holds ([(0%nat, SStr (database knex))]
                                       ++ [(1%nat, SStr (arg_value table))]))
                    (map Columns.tuple (COLUMNS knex)))).
    cbn [bind limit_one columns_query where_ andWhere from select start array_map].
    rewrite Hkept, !map_map.
    erewrite mapM_map_resolved; [reflexivity|].
    intros r. apply (ref_of_record_project (Columns.tuple r)).
  - run_query (map (project columns_fields)
                 (filter (where_holds ([(0%nat, SStr (database knex))] ++ []))
                    (map Columns.tuple (COLUMNS knex)))).
    cbn [bind limit_one columns_query where_ andWhere from select start array_map].
    rewrite Hkept, !map_map.
    erewrite mapM_map_resolved; [reflexivity|].
    intros r. apply (ref_of_record_project (Columns.tuple r)).
Qed.

(** The records of [columnInfo] are built from the kept tuples of the
    joined relation. *)
Lemma every_record_intro knex table column (P : Column.t -> Prop) :
  (forall r x y, In r (COLUMNS knex) -> key_part knex r x ->
     column_selected knex table column r = true ->
     P (column_of_tuple ((Columns.tuple r ++ x) ++ y))) ->
  every_record P (columnInfo knex table column).
Proof.
  intros HP. rewrite columnInfo_resolved. cbv zeta.
  assert (Hall : Forall (fun t => P (column_of_tuple t))
                   (filter (where_holds (columnInfo_conds knex table column))
                      (joined_columns knex))).
  { apply Forall_forall. intros t Ht. apply filter_In in Ht. destruct Ht as (Ht & Hw).
    apply in_joined_columns in Ht. destruct Ht as (r & x & y & Hr & Hx & ->).
    rewrite columnInfo_conds_selected in Hw. now apply HP. }
  destruct (given column); simpl.
  - destruct Hall; [exact I|assumption].
  - now apply Forall_map.
Qed.

Lemma record_from_catalog knex table column r x y :
  In r (COLUMNS knex) -> column_selected knex table column r = true ->
  from_catalog knex table column (column_of_tuple ((Columns.tuple r ++ x) ++ y)).
Proof.
  intros Hr Hsel. exists r. split; [exact Hr|]. split; [exact Hsel|].
  unfold catalog_fields, column_of_tuple, cell, Columns.tuple. simpl.
  repeat split. apply strict_eq_decode.
Qed.

Lemma record_key_fields knex table column r x y :
  key_part knex r x -> column_selected knex table column r = true ->
  key_fields knex (column_of_tuple ((Columns.tuple r ++ x) ++ y)).
Proof.
  intros Hx Hsel.
  assert (Hdb : Columns.TABLE_SCHEMA r = database knex).
  { unfold column_selected in Hsel.
    apply andb_true_iff in Hsel. destruct Hsel as (Hsel & _).
    apply andb_true_iff in Hsel. destruct Hsel as (Hs & _).
    now apply String.eqb_eq. }
  destruct Hx as [f Hf Hon|Hnone].
  - left. exists f. rewrite key_usage_on_holds in Hon.
    apply andb_true_iff in Hon. destruct Hon as (Hc & Hs).
    apply String.eqb_eq in Hc, Hs.
    unfold column_of_tuple, cell, Columns.tuple, KeyColumnUsage.tuple. simpl.
    repeat split; try assumption; congruence.
  - right. unfold column_of_tuple, cell, Columns.tuple. simpl.
    repeat split. intros f Hf Hs Hc.
    specialize (Hnone f Hf). rewrite key_usage_on_holds in Hnone.
    injection Hc as Hc. rewrite Hc, Hs, Hdb, !String.eqb_refl in Hnone.
    discriminate.
Qed.

(** X4: [columns(table?)] resolves, for every catalog, to one pair per
    row of the columns catalog in the selected database, in catalog
    order, narrowed to the table when a non-empty one is given. *)
Theorem columns_lists_catalog_columns knex table :
  columns knex table =
  Resolved (map ref_of_row (filter (column_selected knex table None) (COLUMNS knex))).
Proof. apply columns_resolved. Qed.

(** X5: [columns(table?)] and the list form [columnInfo(table?)] both
    resolve, and name the same columns: a pair of table and column name is
    in the one exactly when a record with that table and name is in the
    other. *)
Theorem columnInfo_names_match_columns knex table :
  exists refs cs,
    columns knex table = Resolved refs /\
    columnInfo knex table None = Resolved (AllColumns cs) /\
    forall tn cn,
      In {| TableColumn.table := tn; TableColumn.column := cn |} refs <->
      exists c, In c cs /\ Column.table c = tn /\ Column.name c = cn.
Proof.
  eexists. eexists. split; [apply columns_resolved|].
  split; [rewrite columnInfo_resolved; reflexivity|].
  intros tn cn. split.
  - intros Href. apply in_map_iff in Href. destruct Href as (r & Heq & Hr).
    apply filter_In in Hr. destruct Hr as (Hr & Hsel).
    injection Heq as <- <-.
    destruct (joined_columns_keeps knex r Hr) as (x & y & Hxy).
    exists (column_of_tuple ((Columns.tuple r ++ x) ++ y)).
    split; [|split; reflexivity].
    apply in_map. apply filter_In. split; [exact Hxy|].
    now rewrite columnInfo_conds_selected.
  - intros (c & Hc & <- & <-). apply in_map_iff in Hc. destruct Hc as (t & <- & Ht).
    apply filter_In in Ht. destruct Ht as (Ht & Hw).
    apply in_joined_columns in Ht. destruct Ht as (r & x & y & Hr & _ & ->).
    rewrite columnInfo_conds_selected in Hw.
    apply in_map_iff. exists r. split; [reflexivity|].
    apply filter_In. now split.
Qed.

(** X6: the single form of [columnInfo] is a search in the list form:
    for a non-empty column name, [columnInfo(table, column)] resolves to
    the first record of [columnInfo(table)] with that name, and is
    rejected with the TypeError when the list has none. *)
Theorem columnInfo_single_from_list knex table c cs :
  c <> EmptyString ->
  columnInfo knex table None = Resolved (AllColumns cs) ->
  columnInfo knex table (Some c) =
  match find (fun r => strict_eq (Column.name r) (VStr c)) cs with
  | Some r => Resolved (OneColumn r)
  | None => Rejected (TypeError "Cannot read property 'COLUMN_NAME' of undefined")
  end.
Proof.
  intros Hc Hlist. rewrite columnInfo_resolved in Hlist. cbv zeta in Hlist.
  change (given None) with false in Hlist. cbv iota in Hlist.
  injection Hlist as <-.
  rewrite columnInfo_resolved, (given_nonempty c Hc). cbv zeta.
  rewrite find_map.
  assert (E : filter (where_holds (columnInfo_conds knex table (Some c)))
                (joined_columns knex) =
              filter (fun t => where_holds (columnInfo_conds knex table None) t
                               && strict_eq (Column.name (column_of_tuple t)) (VStr c))
                (joined_columns knex)).
  { apply filter_ext. intros t. unfold columnInfo_conds.
    rewrite (given_nonempty c Hc). change (given None) with false.
    rewrite !where_holds_app. unfold column_of_tuple. simpl.
    now rewrite strict_eq_decode, !andb_true_r, !andb_assoc. }
  rewrite E, match_head, head_filter_and. clear E.
  destruct (find _ _); reflexivity.
Qed.

Lemma columnInfo_single_from_list_witness :
  exists cs,
    "id" <> EmptyString /\
    columnInfo app (Some "orgs") None = Resolved (AllColumns cs) /\
    columnInfo app (Some "orgs") (Some "id") =
    match find (fun r => strict_eq (Column.name r) (VStr "id")) cs with
    | Some r => Resolved (OneColumn r)
    | None => Rejected (TypeError "Cannot read property 'COLUMN_NAME' of undefined")
    end.
Proof.
  eexists. split; [discriminate|]. split; [vm_compute; reflexivity|].
  apply (columnInfo_single_from_list app (Some "orgs") "id");
    [discriminate|vm_compute; reflexivity].
Defined.

(** X7: every record [columnInfo] resolves to, in either form, is the
    record of a row of the columns catalog that the arguments select
    (selected database; the table and the column when given and
    non-empty): name, table, type, default, length, nullability and
    comment are that row's, and [has_auto_increment] says whether its
    EXTRA is [auto_increment]. *)
Theorem columnInfo_catalog_fields knex table column :
  every_record (from_catalog knex table column) (columnInfo knex table column).
Proof.
  apply every_record_intro. intros r x y Hr _ Hsel.
  now apply record_from_catalog.
Qed.

(** X8: in every record [columnInfo] resolves to, [is_primary_key] and
    the two foreign-key fields are read from one key-usage row of the
    selected database whose column name is the record's (the table of
    that row is not compared); when no such row exists, the record has
    [is_primary_key = false] and both foreign-key fields [null]. *)
Theorem columnInfo_key_fields knex table column :
  every_record (key_fields knex) (columnInfo knex table column).
Proof.
  apply every_record_intro. intros r x y _ Hx Hsel.
  now apply (record_key_fields knex table column).
Qed.

(** X9: for a non-empty table and column name of an existing column,
    when no constraint of the selected database is on a column of that
    name, [columnInfo(table, column)] resolves to a record of that table
    and column with [is_primary_key = false] and both foreign-key fields
    [null]. *)
Theorem columnInfo_unconstrained_column knex t c :
  t <> EmptyString -> c <> EmptyString ->
  names_column knex t c = true -> unconstrained_name knex c = true ->
  exists r,
    columnInfo knex (Some t) (Some c) = Resolved (OneColumn r) /\
    Column.table r = VStr t /\ Column.name r = VStr c /\
    Column.is_primary_key r = false /\
    Column.foreign_key_table r = VNull /\ Column.foreign_key_column r = VNull.
Proof.
  intros Ht Hc Hex Hfree.
  destruct (columnInfo_existing_column knex t c Ht Hc Hex) as (r & Hr & Htab & Hname).
  exists r. repeat (split; [assumption|]).
  assert (Hkey : every_record (key_fields knex) (columnInfo knex (Some t) (Some c))).
  { apply every_record_intro. intros r0 x y _ Hx Hsel.
    now apply (record_key_fields knex (Some t) (Some c)). }
  rewrite Hr in Hkey. simpl in Hkey.
  destruct Hkey as [(f & Hf & Hs & Hn & _)|(_ & Hpk & Hft & Hfc)].
  - exfalso. unfold unconstrained_name in Hfree. rewrite forallb_forall in Hfree.
    specialize (Hfree f Hf). rewrite Hname in Hn. injection Hn as Hn.
    rewrite Hs, Hn, !String.eqb_refl in Hfree. discriminate.
  - now repeat split.
Qed.

Lemma columnInfo_unconstrained_column_witness :
  "users" <> EmptyString /\ "name" <> EmptyString /\
  names_column app "users" "name" = true /\ unconstrained_name app "name" = true /\
  exists r,
    columnInfo app (Some "users") (Some "name") = Resolved (OneColumn r) /\
    Column.table r = VStr "users" /\ Column.name r = VStr "name" /\
    Column.is_primary_key r = false /\
    Column.foreign_key_table r = VNull /\ Column.foreign_key_column r = VNull.
Proof.
  assert (Ht : "users" <> EmptyString) by discriminate.
  assert (Hc : "name" <> EmptyString) by discriminate.
  assert (Hex : names_column app "users" "name" = true) by reflexivity.
  assert (Hfree : unconstrained_name app "name" = true) by reflexivity.
  exact (conj Ht (conj Hc (conj Hex (conj Hfree
           (columnInfo_unconstrained_column app "users" "name" Ht Hc Hex Hfree))))).
Defined.

(** X10: an empty string argument is treated as an absent one: the tests
    [if (table)] and [if (column)] fail on it, so [tableInfo] and
    [columnInfo] fall through to their unfiltered forms. *)
Theorem empty_argument_is_absent knex table column :
  tableInfo knex (Some EmptyString) = tableInfo knex None /\
  columnInfo knex (Some EmptyString) column = columnInfo knex None column /\
  columnInfo knex table (Some EmptyString) = columnInfo knex table None.
Proof. repeat split. Qed.

(** X11: [hasTable] and [hasColumn] resolve to [true] for every catalog
    and every argument: neither awaits its query, and the [count] each
    destructures is the method of the builder. *)
Theorem existence_checks_always_true knex t c :
  hasTable knex t = Resolved true /\ hasColumn knex t c = Resolved true.
Proof. split; reflexivity. Qed.

(** X12: for a table of the selected database whose key listing has no
    row under [PRIMARY], [primary(table)] is rejected with the TypeError
    of reading [Column_name] from the [undefined] first row. *)
Theorem primary_without_key_throws knex t :
  table_exists knex t = true ->
  keys_of knex t "PRIMARY" = [] ->
  primary knex t =
  Rejected (TypeError "Cannot read property 'Column_name' of undefined").
Proof.
  intros Hex Hkeys. unfold primary, raw.
  rewrite String.eqb_refl, Hex, Hkeys. reflexivity.
Qed.

Lemma primary_without_key_throws_witness :
  table_exists events_catalog "events" = true /\
  keys_of events_catalog "events" "PRIMARY" = [] /\
  primary events_catalog "events" =
  Rejected (TypeError "Cannot read property 'Column_name' of undefined").
Proof.
  split; [reflexivity|]. split; [reflexivity|].
  apply (primary_without_key_throws events_catalog "events"); reflexivity.
Defined.

(** X13: whatever [primary(table)] resolves to is the column name of a
    row of the key listing of that table, in the selected database, under
    the constraint [PRIMARY]. *)
Theorem primary_result_is_key_part knex t v :
  primary knex t = Resolved v ->
  exists k, In k (KEYS knex) /\
            Keys.Schema k = database knex /\ Keys.Table k = t /\
            Keys.Key_name k = "PRIMARY" /\ v = VStr (Keys.Column_name k).
Proof.
  unfold primary, raw. rewrite String.eqb_refl.
  destruct (table_exists knex t); [|discriminate].
  destruct (keys_of knex t "PRIMARY") as [|k rest] eqn:E; [discriminate|].
  simpl. intros Hv. injection Hv as <-.
  assert (Hk : In k (keys_of knex t "PRIMARY")) by (rewrite E; now left).
  apply filter_In in Hk. destruct Hk as (Hin & Hk).
  apply andb_true_iff in Hk. destruct Hk as (Hk & Hkey).
  apply andb_true_iff in Hk. destruct Hk as (Hs & Htab).
  apply String.eqb_eq in Hs, Htab, Hkey.
  exists k. now repeat split.
Qed.

Lemma primary_result_is_key_part_witness :
  primary app "orgs" = Resolved (VStr "id") /\
  exists k, In k (KEYS app) /\
            Keys.Schema k = database app /\ Keys.Table k = "orgs" /\
            Keys.Key_name k = "PRIMARY" /\ VStr "id" = VStr (Keys.Column_name k).
Proof.
  assert (Hp : primary app "orgs" = Resolved (VStr "id")) by reflexivity.
  exact (conj Hp (primary_result_is_key_part app "orgs" (VStr "id") Hp)).
Defined.

(** X14: [tableInfo] and [columnInfo] are never rejected by the server:
    every column their queries name exists in the catalog, so the only
    rejection left is the TypeError of a missing first row. *)
Theorem queries_never_rejected_by_server knex table column :
  is_db_error (tableInfo knex table) = false /\
  is_db_error (columnInfo knex table column) = false.
Proof.
  split.
  - rewrite tableInfo_resolved. cbv zeta.
    destruct (given table); [destruct (filter _ _)|]; reflexivity.
  - rewrite columnInfo_resolved. cbv zeta.
    destruct (given column); [destruct (filter _ _)|]; reflexivity.
Qed.
